(** * Dispensary scraper: field extractors, product assembly, orchestration
      and bulk loading, embedded from the Python sources.

    Python [str] values are modelled as lists of 8-bit characters (the code
    points U+0000..U+00FF); [None] is [None] of an option type.  Numbers
    produced by [float(...)] are modelled by the exact rationals their
    decimal numerals denote; binary64 rounding is not modelled.  Wall-clock
    readings (timestamps, durations) are left out of the records. *)

From Stdlib Require Import Ascii String List ZArith QArith Lia Bool.
From stdpp Require Import base option list gmap strings.

#[local] Set Warnings "-clear-no-such-hyp".

Close Scope Q_scope.
Open Scope list_scope.

(* ===================================================================== *)
(** ** Python strings *)
(* ===================================================================== *)

Module Py.

Definition pystr := list ascii.

Definition str (s : string) : pystr := list_ascii_of_string s.

Definition code (c : ascii) : N := N_of_ascii c.

Definition between (lo hi : N) (c : ascii) : bool :=
  (N.leb lo (code c)) && (N.leb (code c) hi).

(** [[0-9]] *)
Definition is_digit (c : ascii) : bool := between 48 57 c.

(** [[^0-9]] (a negated class also matches line breaks) *)
Definition non_digit (c : ascii) : bool := negb (is_digit c).

(** [str.isspace] on one character, which is also what [\s] matches in a
    [str] pattern: TAB..CR, FS..US, SPACE, NEL and NBSP. *)
Definition is_space (c : ascii) : bool :=
  between 9 13 c || between 28 32 c || N.eqb (code c) 133 || N.eqb (code c) 160.

(** Alphanumeric characters of the first 256 code points, as
    [Py_UNICODE_ISALNUM] classifies them. *)
Definition is_alnum (c : ascii) : bool :=
  is_digit c || between 65 90 c || between 97 122 c
  || N.eqb (code c) 170 || N.eqb (code c) 178 || N.eqb (code c) 179
  || N.eqb (code c) 181 || between 185 186 c || between 188 190 c
  || between 192 214 c || between 216 246 c || between 248 255 c.

(** [\w] *)
Definition is_word (c : ascii) : bool := is_alnum c || N.eqb (code c) 95.

(** [str.lower] on one character. *)
Definition lower_char (c : ascii) : ascii :=
  if between 65 90 c || (between 192 222 c && negb (N.eqb (code c) 215))
  then ascii_of_N (code c + 32) else c.

Definition lower (s : pystr) : pystr := map lower_char s.

(** Upper-casing of the letters a..z; enough for [capitalize] on the strain
    keywords, the only text it is applied to. *)
Definition upper_char (c : ascii) : ascii :=
  if between 97 122 c then ascii_of_N (code c - 32) else c.

Definition capitalize (s : pystr) : pystr :=
  match s with
  | [] => []
  | c :: t => upper_char c :: lower t
  end.

Definition eqc (a b : ascii) : bool := Ascii.eqb a b.

Fixpoint lstrip (p : ascii -> bool) (s : pystr) : pystr :=
  match s with
  | [] => []
  | c :: t => if p c then lstrip p t else s
  end.

Definition rstrip (p : ascii -> bool) (s : pystr) : pystr :=
  rev (lstrip p (rev s)).

(** [s.strip(chars)], [chars] given as a predicate; [s.strip()] is
    [strip is_space]. *)
Definition strip (p : ascii -> bool) (s : pystr) : pystr :=
  rstrip p (lstrip p s).

Fixpoint starts_with (pre s : pystr) : bool :=
  match pre, s with
  | [], _ => true
  | a :: pre', b :: s' => eqc a b && starts_with pre' s'
  | _ :: _, [] => false
  end.

(** Leftmost occurrence of [sep] in [s]: the text before it and the text
    after it. *)
Fixpoint cut (sep s : pystr) : option (pystr * pystr) :=
  if starts_with sep s then Some ([], skipn (length sep) s)
  else match s with
       | [] => None
       | c :: t =>
           match cut sep t with
           | Some (a, b) => Some (c :: a, b)
           | None => None
           end
       end.

(** [s.split(sep, 1)] for a non-empty [sep]. *)
Definition split1 (sep s : pystr) : list pystr :=
  match cut sep s with
  | Some (a, b) => [a; b]
  | None => [s]
  end.

(** [sep.join(parts)] *)
Fixpoint join (sep : pystr) (parts : list pystr) : pystr :=
  match parts with
  | [] => []
  | [p] => p
  | p :: ps => p ++ sep ++ join sep ps
  end.

(** [x in s] for a one-character [x]. *)
Definition contains_char (x : ascii) (s : pystr) : bool := existsb (eqc x) s.

(** Truthiness of a string and of an optional string. *)
Definition truthy (s : pystr) : bool :=
  match s with [] => false | _ => true end.

Definition or_empty (o : option pystr) : pystr :=
  match o with Some s => s | None => [] end.

(** The value of a decimal numeral [digits] or [digits.digits], which is what
    [float] returns on the texts the patterns below capture. *)
Definition digit_val (c : ascii) : N := code c - 48.

Definition nat_of_digits (ds : pystr) : N :=
  fold_left (fun acc c => (10 * acc + digit_val c)%N) ds 0%N.

Definition float (s : pystr) : Q :=
  match cut ["."%char] s with
  | None => inject_Z (Z.of_N (nat_of_digits s))
  | Some (i, f) =>
      Qred (Qmake (Z.of_N (nat_of_digits (i ++ f)))
                  (Pos.pow 10 (Pos.of_nat (length f))))
  end.

(** Truthiness of a float: zero is falsy. *)
Definition float_truthy (q : Q) : bool := negb (Qeq_bool q 0).

(** [min(vals)]: the first of the smallest elements; [None] stands for the
    empty list, which the callers test for. *)
Definition min_list (vals : list Q) : option Q :=
  match vals with
  | [] => None
  | v :: vs => Some (fold_left (fun m x => if Qle_bool m x then m else x) vs v)
  end.

(** Calls that may raise: the value returned, or the raised exception
    (an [Exception]) with its [str(e)]. *)
Inductive outcome (A : Type) : Type :=
| Ok (a : A)
| Raised (e : pystr).
Arguments Ok {A} a.
Arguments Raised {A} e.

#[global] Instance outcome_bind : MBind outcome := fun A B f o =>
  match o with Ok a => f a | Raised e => Raised e end.

(** [str.upper] on one character: a..z and the accented letters move up,
    the sharp s becomes "SS".  The micro sign and y-diaeresis, whose upper
    case lies above U+00FF, are kept; neither they nor their upper case
    occur in any text this is compared with. *)
Definition upper_full_char (c : ascii) : pystr :=
  if between 97 122 c || (between 224 254 c && negb (N.eqb (code c) 247))
  then [ascii_of_N (code c - 32)]
  else if N.eqb (code c) 223 then ["S"; "S"]%char
  else [c].

Definition upper (s : pystr) : pystr := flat_map upper_full_char s.

(** [s.endswith(suffix)] *)
Definition endswith (suffix s : pystr) : bool :=
  starts_with (rev suffix) (rev s).

(** [sub in s] *)
Definition contains (sub s : pystr) : bool :=
  match cut sub s with Some _ => true | None => false end.

(** [s.split()]: the maximal runs of non-space characters; [cur] is the
    run being read. *)
Fixpoint split_ws_from (cur s : pystr) : list pystr :=
  match s with
  | [] => if truthy cur then [cur] else []
  | c :: t =>
      if is_space c
      then (if truthy cur then cur :: split_ws_from [] t
            else split_ws_from [] t)
      else split_ws_from (cur ++ [c]) t
  end.

Definition split_ws (s : pystr) : list pystr := split_ws_from [] s.

End Py.

(* ===================================================================== *)
(** ** Regular expressions ([re]) *)
(* ===================================================================== *)

(** The fragment of [re] the patterns of [tools.py] are written in, with
    Python's matching order: a match at a position is the first success of
    the backtracking search, greedy operators trying the longest alternative
    first.  [run] lists the end states of all successful paths in that
    order, so its head is the match Python reports. *)

Module Re.
Import Py.

Inductive regex : Type :=
| Eps
| Chr (p : ascii -> bool)          (* one character of a class *)
| Cat (a b : regex)
| Alt (a b : regex)                (* a|b, left first *)
| Opt (a : regex)                  (* (?:a)? , greedy *)
| Star (p : ascii -> bool)         (* [class]* , greedy *)
| Grp (n : nat) (a : regex)        (* capturing group number n *)
| WordB.                           (* \b *)

(** A position in the subject: the character before it, the text from it
    on, and the groups captured so far. *)
Record mstate : Type := MState {
  m_prev : option ascii;
  m_rest : pystr;
  m_caps : list (nat * pystr)
}.

Definition advance (c : ascii) (t : pystr) (s : mstate) : mstate :=
  MState (Some c) t (m_caps s).

Definition word_at (o : option ascii) : bool :=
  match o with Some c => is_word c | None => false end.

Definition at_boundary (s : mstate) : bool :=
  xorb (word_at (m_prev s)) (word_at (head (m_rest s))).

(** The text between two positions of one subject. *)
Definition consumed (s s' : mstate) : pystr :=
  firstn (length (m_rest s) - length (m_rest s')) (m_rest s).

Definition capture (n : nat) (s s' : mstate) : mstate :=
  MState (m_prev s') (m_rest s') ((n, consumed s s') :: m_caps s').

Fixpoint star_run (p : ascii -> bool) (prev : option ascii) (rest : pystr)
    (caps : list (nat * pystr)) : list mstate :=
  match rest with
  | c :: t =>
      if p c then star_run p (Some c) t caps ++ [MState prev rest caps]
      else [MState prev rest caps]
  | [] => [MState prev rest caps]
  end.

Fixpoint run (r : regex) (s : mstate) : list mstate :=
  match r with
  | Eps => [s]
  | Chr p =>
      match m_rest s with
      | c :: t => if p c then [advance c t s] else []
      | [] => []
      end
  | Cat a b => flat_map (run b) (run a s)
  | Alt a b => run a s ++ run b s
  | Opt a => run a s ++ [s]
  | Star p => star_run p (m_prev s) (m_rest s) (m_caps s)
  | Grp n a => map (capture n s) (run a s)
  | WordB => if at_boundary s then [s] else []
  end.

(** [pattern.match] anchored at a position. *)
Definition match_at (r : regex) (prev : option ascii) (rest : pystr)
    : option mstate :=
  head (run r (MState prev rest [])).

(** [pattern.search]: the match at the leftmost position that has one. *)
Fixpoint search_from (r : regex) (prev : option ascii) (rest : pystr)
    : option mstate :=
  match match_at r prev rest with
  | Some m => Some m
  | None =>
      match rest with
      | c :: t => search_from r (Some c) t
      | [] => None
      end
  end.

Definition search (r : regex) (s : pystr) : option mstate :=
  search_from r None s.

(** [pattern.finditer]: successive non-overlapping matches, each search
    resuming where the previous match ended.  [skip] counts the characters
    of the previous match still to step over. *)
Fixpoint finditer_from (r : regex) (skip : nat) (prev : option ascii)
    (rest : pystr) : list mstate :=
  match skip with
  | S k =>
      match rest with
      | c :: t => finditer_from r k (Some c) t
      | [] => []
      end
  | O =>
      match match_at r prev rest with
      | Some m =>
          m :: match rest with
               | c :: t =>
                   finditer_from r (length rest - length (m_rest m) - 1)
                     (Some c) t
               | [] => []
               end
      | None =>
          match rest with
          | c :: t => finditer_from r 0 (Some c) t
          | [] => []
          end
      end
  end.

Definition finditer (r : regex) (s : pystr) : list mstate :=
  finditer_from r 0 None s.

(** [m.group(n)] *)
Definition group (n : nat) (m : mstate) : option pystr :=
  snd <$> find (fun p => Nat.eqb (fst p) n) (m_caps m).

(** Pattern builders. *)
Definition plus (p : ascii -> bool) : regex := Cat (Chr p) (Star p).

Definition ichar (c x : ascii) : bool := eqc (lower_char x) (lower_char c).

(** A literal text; [lit_i] is the literal under [re.I]. *)
Fixpoint lit (s : pystr) : regex :=
  match s with
  | [] => Eps
  | [c] => Chr (eqc c)
  | c :: t => Cat (Chr (eqc c)) (lit t)
  end.

Fixpoint lit_i (s : pystr) : regex :=
  match s with
  | [] => Eps
  | [c] => Chr (ichar c)
  | c :: t => Cat (Chr (ichar c)) (lit_i t)
  end.

Fixpoint alts (rs : list regex) : regex :=
  match rs with
  | [] => Eps
  | [r] => r
  | r :: rs' => Alt r (alts rs')
  end.

Fixpoint cats (rs : list regex) : regex :=
  match rs with
  | [] => Eps
  | [r] => r
  | r :: rs' => Cat r (cats rs')
  end.

End Re.

(* ===================================================================== *)
(** ** models.py *)
(* ===================================================================== *)

Module Models.
Import Py.

Record ProductData : Type := {
  pd_state : pystr;
  pd_store : pystr;
  pd_subcategory : pystr;
  pd_name : pystr;
  pd_brand : option pystr;
  pd_strain_type : option pystr;
  pd_thc_pct : option Q;
  pd_size_raw : option pystr;
  pd_grams : option Q;
  pd_price : option Q;
  pd_price_per_g : option Q;
  pd_url : option pystr
}.

Definition valid_strains : list pystr :=
  map str ["Indica"; "Sativa"; "Hybrid"]%string.

Definition valid_categories : list pystr :=
  map str ["Whole Flower"; "Pre-Rolls"; "Ground & Shake"]%string.

Definition validate_strain_type (v : option pystr) : option pystr :=
  match v with
  | Some x => if bool_decide (x ∈ valid_strains) then v else None
  | None => None
  end.

Definition validate_subcategory (v : pystr) : outcome pystr :=
  if bool_decide (v ∈ valid_categories) then Ok v
  else Raised (str "Subcategory must be one of: ['Whole Flower', 'Pre-Rolls', 'Ground & Shake']").

Definition validate_thc_pct (v : option Q) : option Q :=
  match v with
  | Some x => if negb (Qle_bool 0 x) || negb (Qle_bool x 100) then None else v
  | None => None
  end.

Definition validate_prices (v : option Q) : option Q :=
  match v with
  | Some x => if negb (Qle_bool 0 x) then None else v
  | None => None
  end.

Definition validate_grams (v : option Q) : option Q :=
  match v with
  | Some x => if Qle_bool x 0 then None else v
  | None => None
  end.

(** [ProductData(state=..., store=..., ...)]: the field validators run on
    construction; only the subcategory validator raises. *)
Definition new_ProductData (state store subcategory name : pystr)
    (brand strain_type : option pystr) (thc_pct : option Q)
    (size_raw : option pystr) (grams price price_per_g : option Q)
    (url : option pystr) : outcome ProductData :=
  sub ← validate_subcategory subcategory;
  Ok {| pd_state := state; pd_store := store; pd_subcategory := sub;
        pd_name := name; pd_brand := brand;
        pd_strain_type := validate_strain_type strain_type;
        pd_thc_pct := validate_thc_pct thc_pct;
        pd_size_raw := size_raw;
        pd_grams := validate_grams grams;
        pd_price := validate_prices price;
        pd_price_per_g := validate_prices price_per_g;
        pd_url := url |}.

Record ScrapingResult : Type := {
  sr_category : pystr;
  sr_products : list ProductData;
  sr_store_count : nat;
  sr_total_products : nat;
  sr_success : bool;
  sr_error_message : option pystr
}.

(** The [results] dictionary is a finite map; [finalize] only reads its
    values, and what it computes does not depend on their order. *)
Record ScrapingSession : Type := {
  ss_session_id : pystr;
  ss_results : gmap pystr ScrapingResult;
  ss_total_products : nat;
  ss_total_stores : nat;
  ss_success : bool;
  ss_errors : list pystr
}.

Definition new_ScrapingSession (session_id : pystr) : ScrapingSession :=
  {| ss_session_id := session_id; ss_results := ∅; ss_total_products := 0;
     ss_total_stores := 0; ss_success := true; ss_errors := [] |}.

Definition add_result (self : ScrapingSession) (category : pystr)
    (result : ScrapingResult) : ScrapingSession :=
  {| ss_session_id := ss_session_id self;
     ss_results := <[category := result]> (ss_results self);
     ss_total_products := ss_total_products self + sr_total_products result;
     ss_total_stores := ss_total_stores self;
     ss_success := ss_success self && sr_success result;
     ss_errors :=
       if sr_success result then ss_errors self
       else match sr_error_message result with
            | Some msg =>
                if truthy msg
                then ss_errors self ++ [category ++ str ": " ++ msg]
                else ss_errors self
            | None => ss_errors self
            end |}.

(** The two nested loops of [finalize] filling [all_stores]. *)
Definition add_stores (all_stores : gset pystr) (result : ScrapingResult)
    : gset pystr :=
  fold_left (fun acc product => {[ pd_store product ]} ∪ acc)
            (sr_products result) all_stores.

Definition collect_stores (results : gmap pystr ScrapingResult)
    : gset pystr :=
  fold_left add_stores (map_to_list results).*2 ∅.

Definition finalize (self : ScrapingSession) : ScrapingSession :=
  {| ss_session_id := ss_session_id self;
     ss_results := ss_results self;
     ss_total_products := ss_total_products self;
     ss_total_stores := size (collect_stores (ss_results self));
     ss_success := ss_success self;
     ss_errors := ss_errors self |}.

Record DatabaseInsertResult : Type := {
  di_table_name : pystr;
  di_category : pystr;
  di_success : bool;
  di_rows_inserted : nat;
  di_rows_failed : nat;
  di_error_message : option pystr
}.

(** [SnowflakeConfig.tables], the default category-to-table mapping. *)
Definition default_tables : gmap pystr pystr :=
  list_to_map
    [(str "Whole Flower", str "TL_Scrape_WHOLE_FLOWER");
     (str "Pre-Rolls", str "TL_Scrape_Pre_Rolls");
     (str "Ground & Shake", str "TL_Scrape_Ground_Shake")].

End Models.

(* ===================================================================== *)
(** ** tools.py *)
(* ===================================================================== *)

Module Tools.
Import Py Re Models.

(** [[0-9]+(?:\.[0-9]{2})?] *)
Definition price_number : regex :=
  Cat (plus is_digit)
      (Opt (cats [Chr (eqc "."); Chr is_digit; Chr is_digit])).

(** [PRICE_RE = re.compile(r"\$\s*([0-9]+(?:\.[0-9]{2})?)")] *)
Definition PRICE_RE : regex :=
  cats [Chr (eqc "$"); Star is_space; Grp 1 price_number].

Definition size_tokens : list pystr :=
  map str ["0.5g"; "1g"; "2g"; "3.5g"; "7g"; "10g"; "14g"; "28g"]%string.

(** [SIZE_RE = re.compile(r"\b(0\.5g|1g|2g|3\.5g|7g|10g|14g|28g)\b", re.I)] *)
Definition SIZE_RE : regex :=
  cats [WordB; Grp 1 (alts (map lit_i size_tokens)); WordB].

(** [[0-9]+(?:\.[0-9]+)?] *)
Definition thc_number : regex :=
  Cat (plus is_digit) (Opt (Cat (Chr (eqc ".")) (plus is_digit))).

(** [THC_SINGLE_RE =
     re.compile(r"\bTHC\b[^0-9]*([0-9]+(?:\.[0-9]+)?)\s*%", re.I)] *)
Definition THC_SINGLE_RE : regex :=
  cats [WordB; lit_i (str "THC"); WordB; Star non_digit;
        Grp 1 thc_number; Star is_space; Chr (eqc "%")].

(** [THC_RANGE_RE = re.compile(
      r"\bTHC\b[^0-9]*([0-9]+(?:\.[0-9]+)?)\s*%[^0-9]+([0-9]+(?:\.[0-9]+)?)\s*%",
      re.I)] *)
Definition THC_RANGE_RE : regex :=
  cats [WordB; lit_i (str "THC"); WordB; Star non_digit;
        Grp 1 thc_number; Star is_space; Chr (eqc "%");
        plus non_digit; Grp 2 thc_number; Star is_space; Chr (eqc "%")].

(** [SIZE_MAP], values in grams. *)
Definition SIZE_MAP : list (pystr * Q) :=
  [(str "0.5g", 1 # 2); (str "1g", 1 # 1); (str "2g", 2 # 1);
   (str "3.5g", 7 # 2); (str "7g", 7 # 1); (str "10g", 10 # 1);
   (str "14g", 14 # 1); (str "28g", 28 # 1)]%Q.

(** [dict.get] on an association list. *)
Definition dict_get {V} (d : list (pystr * V)) (k : pystr) : option V :=
  snd <$> find (fun kv => bool_decide (fst kv = k)) d.

(** [grams_from_size(s) = SIZE_MAP.get((s or "").lower())] *)
Definition grams_from_size (s : option pystr) : option Q :=
  dict_get SIZE_MAP (lower (or_empty s)).

(** [product_slug]: the body of the [try], [None] standing for the
    exception it may raise ([AttributeError] on [None], [IndexError] when
    the marker is missing), and the [except] branch [href or ""]. *)
Definition product_slug_try (href : option pystr) : option pystr :=
  h ← href;
  a ← nth_error (split1 (str "/product/") h) 1;
  b ← nth_error (split1 (str "?") a) 0;
  c ← nth_error (split1 (str "#") b) 0;
  Some (strip (eqc "/") c).

Definition product_slug (href : option pystr) : pystr :=
  match product_slug_try href with
  | Some slug => slug
  | None => or_empty href
  end.

(** *** What the page shows for one product link

    The rendered page is not part of the program; each Playwright call made
    on a product link is represented by what it returned, or by [Raised]
    when it raised. *)

Record link_obs : Type := LinkObs {
  (** [link.text_content()] *)
  lk_text : outcome (option pystr);
  (** [link.get_attribute("href")] *)
  lk_href : outcome (option pystr);
  (** [card.count()] is non-zero *)
  lk_card_count : outcome bool;
  (** [card.inner_text()] *)
  lk_card_inner : outcome pystr;
  (** [text_content()] of the elements of the price locator, in order *)
  lk_price_els : outcome (list (option pystr));
  (** the brand locator: [None] when it matches nothing, else the
      [text_content() or ""] of its first element *)
  lk_brand_el : outcome (option pystr);
  (** [inner_text()] of the body of the product detail page *)
  lk_pdp_body : outcome pystr;
  (** what [extract_brand_from_pdp] returns for the product URL; its
      breadcrumb and label heuristics are not unfolded here *)
  lk_pdp_brand : option pystr;
  (** the strain locator: [None] when it matches nothing, else the
      [text_content() or ""] of its first element *)
  lk_strain_el : outcome (option pystr)
}.

(** The dictionary appended to [rows]. *)
Record row : Type := Row {
  r_state : pystr;
  r_store : pystr;
  r_subcategory : pystr;
  r_name : pystr;
  r_brand : option pystr;
  r_strain_type : option pystr;
  r_thc_pct : option Q;
  r_size_raw : option pystr;
  r_grams : option Q;
  r_price : option Q;
  r_price_per_g : option Q;
  r_url : option pystr
}.

Definition dedup_key : Type := pystr * pystr * option pystr * pystr.

Definition BASE : pystr := str "https://www.trulieve.com".

(** [min(vals) if vals else None] over the values of all [PRICE_RE]
    matches of a text. *)
Definition price_values (blob : pystr) : list Q :=
  map (fun m => float (or_empty (group 1 m))) (finditer PRICE_RE blob).

Definition price_of_blob (blob : pystr) : option Q :=
  min_list (price_values blob).

Definition price_texts (els : list (option pystr)) : list pystr :=
  omap (fun t => match t with
                 | Some x => if truthy x && contains_char "$" x
                             then Some x else None
                 | None => None
                 end) (firstn 4 els).

(** [extract_price_from_card]: the text searched, then the price. *)
Definition price_blob (lk : link_obs) : outcome pystr :=
  match lk_price_els lk with
  | Ok els =>
      match price_texts els with
      | [] => match lk_card_inner lk with
              | Ok t => Ok t
              | Raised _ => lk_card_inner lk     (* the [except] branch *)
              end
      | texts => Ok (join (str " ") texts)
      end
  | Raised _ => lk_card_inner lk
  end.

Definition extract_price_from_card (lk : link_obs) : outcome (option Q) :=
  blob ← price_blob lk; Ok (price_of_blob blob).

(** [extract_price_from_pdp] *)
Definition extract_price_from_pdp (lk : link_obs) : option Q :=
  match lk_pdp_body lk with
  | Ok body => price_of_blob body
  | Raised _ => None
  end.

(** [extract_brand_from_card] *)
Definition extract_brand_from_card (lk : link_obs) : option pystr :=
  match lk_brand_el lk with
  | Ok (Some t) =>
      let txt := strip is_space t in
      if truthy txt then Some txt else None
  | _ => None
  end.

Definition strain_keywords : list pystr :=
  map str ["Indica"; "Sativa"; "Hybrid"]%string.

(** [re.search(r"(Indica|Sativa|Hybrid)", t, re.I)] *)
Definition STRAIN_RE : regex := Grp 1 (alts (map lit_i strain_keywords)).

(** [re.search(rf"\b{kw}\b", card_text, re.I)] *)
Definition keyword_re (kw : pystr) : regex := cats [WordB; lit_i kw; WordB].

Definition strain_of (el : option pystr) (card_text : pystr)
    : option pystr :=
  let from_el :=
    match el with
    | Some t =>
        match search STRAIN_RE t with
        | Some m => Some (capitalize (or_empty (group 1 m)))
        | None => None
        end
    | None => None
    end in
  match from_el with
  | Some s => if truthy s then Some s
              else find (fun kw => bool_decide
                           (is_Some (search (keyword_re kw) card_text)))
                        strain_keywords
  | None => find (fun kw => bool_decide
                    (is_Some (search (keyword_re kw) card_text)))
                 strain_keywords
  end.

(** The THC lines of [scrape_category]: the range pattern first, the
    single-value pattern when it gave nothing. *)
Definition thc_of (card_text : pystr) : option Q :=
  match search THC_RANGE_RE card_text with
  | Some mr => Some (float (or_empty (group 1 mr)))
  | None =>
      match search THC_SINGLE_RE card_text with
      | Some ms => Some (float (or_empty (group 1 ms)))
      | None => None
      end
  end.

(** [SIZE_RE.search(card_text).group(1).lower()
     if SIZE_RE.search(card_text) else None] *)
Definition size_of (card_text : pystr) : option pystr :=
  match search SIZE_RE card_text with
  | Some m => Some (lower (or_empty (group 1 m)))
  | None => None
  end.

Section Assembly.

(** [urllib.parse.urljoin] and the built-in [round] are library functions. *)
Variable urljoin : pystr -> pystr -> pystr.
Variable round : Q -> Z -> Q.

(** [round(price / grams, 2) if price and grams else None] *)
Definition price_per_g (price grams : option Q) : option Q :=
  match price, grams with
  | Some p, Some g =>
      if float_truthy p && float_truthy g then Some (round (p / g)%Q 2)
      else None
  | _, _ => None
  end.

(** One turn of the loop body up to the deduplication key: [Raised] when a
    call raised (the bare [except] skips the link), [Ok None] when the name
    is empty ([continue]), else the key and the row to append. *)
Definition assemble (store_name subcategory : pystr) (lk : link_obs)
    : outcome (option (dedup_key * row)) :=
  text ← lk_text lk;
  let name := strip is_space (or_empty text) in
  if negb (truthy name) then Ok None else
  href ← lk_href lk;
  let url := if truthy (or_empty href)
             then Some (urljoin BASE (or_empty href)) else None in
  let slug := product_slug (Some (or_empty href)) in
  has_card ← lk_card_count lk;
  card_text ← (if has_card : bool then lk_card_inner lk else Ok name);
  let size := size_of card_text in
  let grams := grams_from_size size in
  price0 ← extract_price_from_card lk;
  let brand0 := extract_brand_from_card lk in
  let fallback :=
    (bool_decide (price0 = None) || bool_decide (brand0 = None))
    && bool_decide (is_Some url) in
  let price :=
    if fallback && bool_decide (price0 = None)
    then match extract_price_from_pdp lk with
         | Some p => Some p
         | None => price0
         end
    else price0 in
  let brand :=
    if fallback && bool_decide (brand0 = None)
    then match lk_pdp_brand lk with
         | Some b => if truthy b then Some b else brand0
         | None => brand0
         end
    else brand0 in
  strain_el ← lk_strain_el lk;
  let strain_type := strain_of strain_el card_text in
  let thc_pct := thc_of card_text in
  Ok (Some ((store_name, slug, size, subcategory),
            Row (str "FL") store_name subcategory name brand strain_type
                thc_pct size grams price (price_per_g price grams) url)).

(** The loop of [scrape_category] over the product links found on the
    loaded category page: [rows] and [seen] after each link. *)
Definition scrape_step (store_name subcategory : pystr)
    (acc : list row * gset dedup_key) (lk : link_obs)
    : list row * gset dedup_key :=
  match assemble store_name subcategory lk with
  | Ok (Some (key, r)) =>
      if bool_decide (key ∈ acc.2) then acc
      else (acc.1 ++ [r], {[ key ]} ∪ acc.2)
  | Ok None => acc
  | Raised _ => acc
  end.

Definition scrape_category (store_name subcategory : pystr)
    (name_links : list link_obs) : list row :=
  (fold_left (scrape_step store_name subcategory) name_links ([], ∅)).1.

End Assembly.

(** The comprehension building one [ProductData] per row: the first
    failing construction raises out of it. *)
Definition product_of_row (r : row) : outcome ProductData :=
  new_ProductData (r_state r) (r_store r) (r_subcategory r) (r_name r)
    (r_brand r) (r_strain_type r) (r_thc_pct r) (r_size_raw r) (r_grams r)
    (r_price r) (r_price_per_g r) (r_url r).

Fixpoint products_of_rows (rows : list row) : outcome (list ProductData) :=
  match rows with
  | [] => Ok []
  | r :: rs =>
      p ← product_of_row r;
      ps ← products_of_rows rs;
      Ok (p :: ps)
  end.

(** [looks_like_florida] *)
Definition looks_like_florida (href text : option pystr) : bool :=
  let t := upper (or_empty text) in
  let h := lower (or_empty href) in
  contains (str ", FL") t
  || endswith (str " FL") t
  || contains (str " FL ") t
  || existsb (fun v => contains v h) [str "/florida"; str "-fl-"]
  || existsb (fun suffix => endswith suffix h) [str "/fl"; str "-fl"].

(** One anchor of the store directory: what [get_attribute("href")] and
    [text_content()] return for it. *)
Record anchor_obs : Type := AnchorObs {
  an_href : outcome (option pystr);
  an_text : outcome (option pystr)
}.

(** The store directory page: the navigation to it and the anchors its
    locator lists. *)
Record directory_obs : Type := DirectoryObs {
  dir_goto : outcome unit;
  dir_anchors : outcome (list anchor_obs)
}.

(** What the browser shows for one store and category: opening a page, the
    pause, the navigation to the store (with the look-up of its button), the
    product links of the loaded category page, and closing the page. *)
Record store_page_obs : Type := StorePageObs {
  sp_new_page : outcome unit;
  sp_wait : outcome unit;
  sp_store_nav : outcome unit;
  sp_links : outcome (list link_obs);
  sp_close : outcome unit
}.

Section Locator.

Variable urljoin : pystr -> pystr -> pystr.
Variable round : Q -> Z -> Q.

(** The condition under which an anchor is kept. *)
Definition keep_anchor (seen : gset pystr) (href : option pystr)
    (txt : pystr) : bool :=
  truthy (or_empty href)
  && contains (str "/dispensaries/") (or_empty href)
  && negb (bool_decide (or_empty href ∈ seen))
  && looks_like_florida href (Some txt).

(** The first loop of [extract_fl_store_links]: [out] and [seen]. *)
Fixpoint collect_anchors (anchors : list anchor_obs)
    (out : list (pystr * pystr)) (seen : gset pystr)
    : outcome (list (pystr * pystr)) :=
  match anchors with
  | [] => Ok out
  | a :: later =>
      href ← an_href a;
      text ← an_text a;
      let txt := strip is_space (or_empty text) in
      if keep_anchor seen href txt
      then collect_anchors later
             (out ++ [(join (str " ") (split_ws txt),
                       urljoin BASE (or_empty href))])
             ({[ or_empty href ]} ∪ seen)
      else collect_anchors later out seen
  end.

(** The second loop: one entry per name, the first. *)
Fixpoint uniq_by_name (out uniq : list (pystr * pystr))
    (names : gset pystr) : list (pystr * pystr) :=
  match out with
  | [] => uniq
  | (name, url) :: later =>
      if bool_decide (name ∈ names) then uniq_by_name later uniq names
      else uniq_by_name later (uniq ++ [(name, url)]) ({[ name ]} ∪ names)
  end.

Definition extract_fl_store_links (page : directory_obs)
    : outcome (list (pystr * pystr)) :=
  _ ← dir_goto page;
  anchors ← dir_anchors page;
  out ← collect_anchors anchors [] ∅;
  Ok (uniq_by_name out [] ∅).

(** [try: body finally: await page.close()] *)
Definition finally_close {A} (body : outcome A) (close : outcome unit)
    : outcome A :=
  match close with
  | Ok _ => body
  | Raised e => Raised e
  end.

(** [scrape_store_category_tool] *)
Definition scrape_store_category_tool (obs : store_page_obs)
    (store_name subcategory : pystr) : outcome (list ProductData) :=
  _ ← sp_new_page obs;
  finally_close
    (_ ← sp_wait obs;
     match sp_store_nav obs with
     | Raised _ => Ok []
     | Ok _ =>
         links ← sp_links obs;
         products_of_rows
           (scrape_category urljoin round store_name subcategory links)
     end)
    (sp_close obs).

End Locator.

End Tools.

(* ===================================================================== *)
(** ** agent.py *)
(* ===================================================================== *)

Module Agent.
Import Py Models.

(** One store of the list returned by [extract_florida_stores_tool],
    together with what [scrape_store_category_tool] does when called for
    it. *)
Record store_visit : Type := {
  sv_name : pystr;
  sv_url : pystr;
  sv_scrape : outcome (list ProductData)
}.

(** [stores[:n]] *)
Definition slice_to {A} (n : Z) (l : list A) : list A :=
  if (0 <=? n)%Z then firstn (Z.to_nat n) l
  else firstn (length l - Z.to_nat (- n)) l.

(** [if max_stores: stores = stores[:max_stores]] *)
Definition cap_stores {A} (max_stores : option Z) (stores : list A)
    : list A :=
  match max_stores with
  | Some n => if (n =? 0)%Z then stores else slice_to n stores
  | None => stores
  end.

(** The loop over the stores: [all_products] and [successful_stores]. *)
Definition visit (acc : list ProductData * nat) (sv : store_visit)
    : list ProductData * nat :=
  match sv_scrape sv with
  | Ok products => (acc.1 ++ products, S acc.2)
  | Raised _ => acc
  end.

Definition scrape_single_category
    (extract_florida_stores_tool : outcome (list store_visit))
    (category_name category_url : pystr) (max_stores : option Z)
    : ScrapingResult :=
  match extract_florida_stores_tool with
  | Ok stores =>
      let stores := cap_stores max_stores stores in
      let '(all_products, successful_stores) :=
        fold_left visit stores ([], 0) in
      let success := bool_decide (0 < length all_products) in
      {| sr_category := category_name;
         sr_products := all_products;
         sr_store_count := successful_stores;
         sr_total_products := length all_products;
         sr_success := success;
         sr_error_message :=
           if success then None
           else Some (str "No products found for " ++ category_name) |}
  | Raised e =>
      {| sr_category := category_name;
         sr_products := [];
         sr_store_count := 0;
         sr_total_products := 0;
         sr_success := false;
         sr_error_message := Some e |}
  end.

(** [default_categories] of [scrape_all_categories]: (url, name). *)
Definition default_categories : list (pystr * pystr) :=
  [(str "https://www.trulieve.com/category/flower/whole-flower",
    str "Whole Flower");
   (str "https://www.trulieve.com/category/flower/pre-rolls",
    str "Pre-Rolls");
   (str "https://www.trulieve.com/category/flower/ground-shake",
    str "Ground & Shake")].

(** The categories kept by the optional filter; an empty list is falsy and
    keeps them all. *)
Definition select_categories (categories_to_scrape : option (list pystr))
    : list (pystr * pystr) :=
  match categories_to_scrape with
  | None | Some [] => default_categories
  | Some wanted => filter (fun c => c.2 ∈ wanted) default_categories
  end.

(** The [ScrapingResult] built for a task that completed with an
    exception. *)
Definition failed_result (category_name e : pystr) : ScrapingResult :=
  {| sr_category := category_name; sr_products := []; sr_store_count := 0;
     sr_total_products := 0; sr_success := false;
     sr_error_message := Some e |}.

(** [scrape_all_categories].  [task url name] is what the task of a
    category completes with under [asyncio.gather(return_exceptions=True)]:
    a result, or an exception.  The dictionary returned is listed in
    insertion order. *)
Definition scrape_all_categories
    (task : pystr -> pystr -> outcome ScrapingResult)
    (categories_to_scrape : option (list pystr))
    : list (pystr * ScrapingResult) :=
  map (fun c =>
         (c.2, match task c.1 c.2 with
               | Ok result => result
               | Raised e => failed_result c.2 e
               end))
      (select_categories categories_to_scrape).

(** [products_by_category] of [store_results_in_snowflake], listed in
    insertion order; [scraping_results] lists the items of a dictionary, so
    its categories are pairwise different. *)
Definition products_by_category
    (scraping_results : list (pystr * ScrapingResult))
    : list (pystr * list ProductData) :=
  omap (fun cr =>
          if sr_success cr.2 && bool_decide (sr_products cr.2 ≠ [])
          then Some (cr.1, sr_products cr.2) else None)
       scraping_results.

End Agent.

(* ===================================================================== *)
(** ** snowflake_client.py *)
(* ===================================================================== *)

Module SnowflakeClient.
Import Py Models.

(** What the client does to the data store, in order. *)
Inductive db_event : Type :=
| EvWrite (table_name : pystr) (rows : nat)   (* [write_pandas] *)
| EvRollback
| EvCommit
| EvSleep (seconds : nat).

(** What one [write_pandas] call does: it returns [(success, _, nrows, _)]
    or raises. *)
Inductive write_reply : Type :=
| Wrote (success : bool) (nrows : nat)
| WriteRaised (e : pystr).

(** The client and the store it talks to: whether a connection is open,
    how many [write_pandas] calls were made, and the operations so far. *)
Record client : Type := Client {
  connected : bool;
  writes : nat;
  log : list db_event
}.

Definition emit (ev : db_event) (c : client) : client :=
  Client (connected c) (writes c) (log c ++ [ev]).

Section Store.

(** The reply of the store to the [i]-th [write_pandas] call. *)
Variable reply : nat -> write_reply.

(** The [with self.connection_context() as conn:] block of one attempt:
    the rows written, or the message of the exception that reaches the
    [except] clauses. *)
Definition attempt_insert (products : list ProductData) (table_name : pystr)
    (c : client) : (pystr + nat) * client :=
  if negb (connected c)
  then (inl (str "Connection not established. Call connect() first."), c)
  else
    let c1 := Client (connected c) (S (writes c))
                     (log c ++ [EvWrite table_name (length products)]) in
    match reply (writes c) with
    | Wrote true nrows => (inr nrows, emit EvCommit c1)
    | Wrote false _ =>
        (inl (str "write_pandas returned success=False"),
         emit EvCommit (emit EvRollback c1))
    | WriteRaised e => (inl e, emit EvCommit (emit EvRollback c1))
    end.

(** [for attempt in range(3)] *)
Fixpoint insert_loop (attempts : list nat) (products : list ProductData)
    (table_name category : pystr) (c : client)
    : DatabaseInsertResult * client :=
  match attempts with
  | [] =>
      ({| di_table_name := table_name; di_category := category;
          di_success := false; di_rows_inserted := 0; di_rows_failed := 0;
          di_error_message := Some (str "Exhausted all retry attempts") |},
       c)
  | attempt :: later =>
      match attempt_insert products table_name c with
      | (inr nrows, c') =>
          ({| di_table_name := table_name; di_category := category;
              di_success := true; di_rows_inserted := nrows;
              di_rows_failed := 0; di_error_message := None |}, c')
      | (inl e, c') =>
          if Nat.eqb attempt 2
          then ({| di_table_name := table_name; di_category := category;
                   di_success := false; di_rows_inserted := 0;
                   di_rows_failed := 0; di_error_message := Some e |}, c')
          else insert_loop later products table_name category
                 (emit (EvSleep (2 ^ attempt)) c')
      end
  end.

Definition insert_products (products : list ProductData)
    (table_name : pystr) (c : client) : DatabaseInsertResult * client :=
  match products with
  | [] =>
      ({| di_table_name := table_name; di_category := str "unknown";
          di_success := true; di_rows_inserted := 0; di_rows_failed := 0;
          di_error_message := None |}, c)
  | first :: _ =>
      insert_loop (seq 0 3) products table_name (pd_subcategory first) c
  end.

(** One turn of the loop of [insert_products_by_category]. *)
Definition insert_group (tables : gmap pystr pystr)
    (acc : gmap pystr DatabaseInsertResult * client)
    (group : pystr * list ProductData)
    : gmap pystr DatabaseInsertResult * client :=
  let '(category, products) := group in
  match tables !! category with
  | Some table_name =>
      let '(result, c') := insert_products products table_name acc.2 in
      (<[category := result]> acc.1, c')
  | None =>
      (<[category :=
           {| di_table_name := str "unknown"; di_category := category;
              di_success := false; di_rows_inserted := 0;
              di_rows_failed := 0;
              di_error_message :=
                Some (str "No table mapping for category: " ++ category) |}]>
         acc.1, acc.2)
  end.

(** [products_by_category.items()] in iteration order. *)
Definition insert_products_by_category (tables : gmap pystr pystr)
    (products_by_category : list (pystr * list ProductData)) (c : client)
    : gmap pystr DatabaseInsertResult * client :=
  fold_left (insert_group tables) products_by_category (∅, c).

End Store.

(** What one [snowflake.connector.connect] call does. *)
Inductive connect_reply : Type :=
| Connected
| ConnectFailed (e : pystr)      (* [DatabaseError] or [InterfaceError] *)
| ConnectCrashed (e : pystr).    (* any other exception *)

Inductive connect_event : Type :=
| CeAttempt
| CeSleep (seconds : nat).

(** [for attempt in range(3)] of [connect]: whether a connection was stored
    or the exception raised, and the calls made. *)
Fixpoint connect_loop (answer : nat -> connect_reply) (attempts : list nat)
    (trace : list connect_event) : outcome bool * list connect_event :=
  match attempts with
  | [] => (Ok false, trace)
  | attempt :: later =>
      match answer attempt with
      | Connected => (Ok true, trace ++ [CeAttempt])
      | ConnectFailed e =>
          if Nat.eqb attempt 2 then (Raised e, trace ++ [CeAttempt])
          else connect_loop answer later
                 (trace ++ [CeAttempt; CeSleep (2 ^ attempt)])
      | ConnectCrashed e => (Raised e, trace ++ [CeAttempt])
      end
  end.

(** [connect]; [answer i] is the reply to the call of attempt [i]. *)
Definition connect (answer : nat -> connect_reply) (c : client)
    : outcome client * list connect_event :=
  match connect_loop answer (seq 0 3) [] with
  | (Ok made, trace) =>
      (Ok (Client (made || connected c) (writes c) (log c)), trace)
  | (Raised e, trace) => (Raised e, trace)
  end.

(** [close] *)
Definition close (c : client) : client :=
  Client false (writes c) (log c).


(** *** [MockSnowflakeClient] *)

(** [s.replace(old, new)] for one-character [old] and [new]. *)
Definition replace_char (old new : ascii) (s : pystr) : pystr :=
  map (fun c => if eqc c old then new else c) s.

(** [MockSnowflakeClient.insert_products]; the duration it reports is a
    timing field, which [DatabaseInsertResult] leaves out. *)
Definition mock_insert_products (products : list ProductData)
    (table_name : pystr) : DatabaseInsertResult :=
  {| di_table_name := table_name;
     di_category := match products with
                    | first :: _ => pd_subcategory first
                    | [] => str "unknown"
                    end;
     di_success := true; di_rows_inserted := length products;
     di_rows_failed := 0; di_error_message := None |}.

(** [self.config.tables.get(category,
      f"mock_table_{category.lower().replace(' ', '_')}")] *)
Definition mock_table (tables : gmap pystr pystr) (category : pystr)
    : pystr :=
  match tables !! category with
  | Some table_name => table_name
  | None => str "mock_table_" ++ replace_char " " "_" (lower category)
  end.

(** [MockSnowflakeClient.insert_products_by_category] *)
Definition mock_insert_products_by_category (tables : gmap pystr pystr)
    (products_by_category : list (pystr * list ProductData))
    : gmap pystr DatabaseInsertResult :=
  fold_left (fun results group =>
               <[group.1 := mock_insert_products group.2
                              (mock_table tables group.1)]> results)
            products_by_category ∅.
End SnowflakeClient.

(* ===================================================================== *)
(** ** agent.py: storing the results and the complete workflow *)
(* ===================================================================== *)

Module Workflow.
Import Py Models Agent SnowflakeClient.

Section Run.

Variable reply : nat -> write_reply.
Variable tables : gmap pystr pystr.

(** [store_results_in_snowflake]; [client] is [ctx.deps.snowflake_client],
    absent when there is none.  [insert_products_by_category] turns every
    exception of a write into a failed result, so the [except] clause
    around its call has nothing to catch. *)
Definition store_results_in_snowflake (client : option SnowflakeClient.client)
    (scraping_results : list (pystr * ScrapingResult))
    : gmap pystr DatabaseInsertResult * option SnowflakeClient.client :=
  match client with
  | None => (∅, None)
  | Some c =>
      match products_by_category scraping_results with
      | [] => (∅, Some c)
      | groups =>
          let '(insert_results, c') :=
            insert_products_by_category reply tables groups c in
          (insert_results, Some c')
      end
  end.

(** The error lines added for failed inserts, in the order of the
    returned dictionary, which is the order the groups were inserted in. *)
Definition database_errors (groups : list (pystr * list ProductData))
    (database_results : gmap pystr DatabaseInsertResult) : list pystr :=
  omap (fun g =>
          match database_results !! g.1 with
          | Some db_result =>
              if di_success db_result then None
              else Some (str "Database insert failed for " ++ g.1 ++ str ": "
                         ++ match di_error_message db_result with
                            | Some msg => msg
                            | None => str "None"
                            end)
          | None => None
          end)
       groups.

Definition with_errors (session : ScrapingSession) (more : list pystr)
    : ScrapingSession :=
  {| ss_session_id := ss_session_id session;
     ss_results := ss_results session;
     ss_total_products := ss_total_products session;
     ss_total_stores := ss_total_stores session;
     ss_success := ss_success session;
     ss_errors := ss_errors session ++ more |}.

(** [run_complete_scraping_workflow], from the generated session id on.
    Every step of the [try] block returns, failures being results already,
    so its [except] clause is not entered. *)
Definition run_complete_scraping_workflow
    (task : pystr -> pystr -> outcome ScrapingResult)
    (client : option SnowflakeClient.client) (session_id : pystr)
    (categories_to_scrape : option (list pystr)) (store_in_database : bool)
    : ScrapingSession * option SnowflakeClient.client :=
  let scraping_results := scrape_all_categories task categories_to_scrape in
  let session :=
    fold_left (fun s cr => add_result s cr.1 cr.2) scraping_results
              (new_ScrapingSession session_id) in
  let '(session, client') :=
    if store_in_database then
      match client with
      | Some _ =>
          let '(database_results, client') :=
            store_results_in_snowflake client scraping_results in
          (with_errors session
             (database_errors (products_by_category scraping_results)
                              database_results),
           client')
      | None =>
          (with_errors session
             [str "Snowflake client not available for database storage"],
           client)
      end
    else (session, client) in
  (finalize session, client').

End Run.

End Workflow.

(* ===================================================================== *)
(** * Vocabulary of the statements and sample data *)
(* ===================================================================== *)

Import Py Re Models Tools Agent SnowflakeClient.

(** The result stored for a category that has no table. *)
Definition no_mapping_result (category : pystr) : DatabaseInsertResult :=
  {| di_table_name := str "unknown"; di_category := category;
     di_success := false; di_rows_inserted := 0; di_rows_failed := 0;
     di_error_message :=
       Some (str "No table mapping for category: " ++ category) |}.

(** A data store on which every write succeeds with [rows] rows. *)
Definition always_written (rows : nat) : nat -> SnowflakeClient.write_reply :=
  fun _ => SnowflakeClient.Wrote true rows.

(** A product of a given store and category, other fields left bare. *)
Definition sample_product (store category : string) : Models.ProductData :=
  {| Models.pd_state := Py.str "FL"; Models.pd_store := Py.str store;
     Models.pd_subcategory := Py.str category;
     Models.pd_name := Py.str "Blue Dream"; Models.pd_brand := None;
     Models.pd_strain_type := None; Models.pd_thc_pct := None;
     Models.pd_size_raw := None; Models.pd_grams := None;
     Models.pd_price := None; Models.pd_price_per_g := None;
     Models.pd_url := None |}.

(** The products a store contributes: those its scrape returned. *)
Definition products_of (sv : store_visit) : list ProductData :=
  match sv_scrape sv with
  | Ok products => products
  | Raised _ => []
  end.



(** The scrape of the store returned. *)
Definition returned (sv : store_visit) : bool :=
  match sv_scrape sv with Ok _ => true | Raised _ => false end.




(** Every store name on every product of every category result. *)
Definition session_store_names (session : ScrapingSession) : list pystr :=
  flat_map (fun result => map pd_store (sr_products result))
           (map_to_list (ss_results session)).*2.

(** A successful category result holding the given products. *)
Definition category_result (category : string) (products : list ProductData)
    (store_count : nat) : ScrapingResult :=
  {| sr_category := str category; sr_products := products;
     sr_store_count := store_count;
     sr_total_products := length products;
     sr_success := true; sr_error_message := None |}.

(** One store appearing under two categories. *)
Definition shared_store_session : ScrapingSession :=
  add_result
    (add_result (new_ScrapingSession (str "s1")) (str "Pre-Rolls")
       (category_result "Pre-Rolls" [sample_product "Miami" "Pre-Rolls"] 1))
    (str "Whole Flower")
    (category_result "Whole Flower"
       [sample_product "Miami" "Whole Flower"] 1).

(** The text up to the first character for which [stop] holds. *)
Fixpoint until (stop : ascii -> bool) (s : pystr) : pystr :=
  match s with
  | [] => []
  | c :: t => if stop c then [] else c :: until stop t
  end.

(** [slug] is [seg] without the characters of class [p] at both ends. *)
Definition trimmed_of (p : ascii -> bool) (seg slug : pystr) : Prop :=
  exists l r,
    seg = l ++ slug ++ r /\
    Forall (fun c => p c = true) l /\
    Forall (fun c => p c = true) r /\
    (forall c, head slug = Some c -> p c = false) /\
    (forall c, last slug = Some c -> p c = false).

(** The product-path marker. *)
Definition product_marker : pystr := str "/product/".

(** The part of a URL tail before its query string and fragment. *)
Definition path_only (tail : pystr) : pystr :=
  until (fun c => eqc "?" c || eqc "#" c) tail.

(** The card text a link is assembled from. *)
Definition card_text_of (lk : link_obs) : outcome pystr :=
  match lk_text lk, lk_card_count lk with
  | Ok text, Ok true => lk_card_inner lk
  | Ok text, Ok false => Ok (strip is_space (or_empty text))
  | Raised e, _ => Raised e
  | _, Raised e => Raised e
  end.

(** A product link whose card shows only the text [card]: no price or
    brand sub-element, no strain element, and a detail page that times
    out. *)
Definition plain_link (name href card : string) : Tools.link_obs :=
  Tools.LinkObs (Py.Ok (Some (Py.str name))) (Py.Ok (Some (Py.str href)))
    (Py.Ok true) (Py.Ok (Py.str card)) (Py.Ok []) (Py.Ok None)
    (Py.Raised (Py.str "Timeout 20000ms exceeded")) None (Py.Ok None).

(** Joining of a site-relative href, used where a concrete [urljoin] is
    needed. *)
Definition join_url (base href : Py.pystr) : Py.pystr := base ++ href.

(** Rounding to [ndigits] decimals, halves to even, on exact rationals. *)
Definition round_half_even (q : Q) (ndigits : Z) : Q :=
  let scale := (10 ^ ndigits)%Z in
  let x := (q * inject_Z scale)%Q in
  let fl := (Qnum x / Zpos (Qden x))%Z in
  let twice := (2 * (Qnum x - fl * Zpos (Qden x)))%Z in
  let n := if (twice <? Zpos (Qden x))%Z then fl
           else if (Zpos (Qden x) <? twice)%Z then (fl + 1)%Z
           else if Z.even fl then fl else (fl + 1)%Z in
  Qred (Qmake n (Z.to_pos scale)).

(** The parts of [THC_SINGLE_RE], and what [THC_RANGE_RE] adds to them. *)
Definition thc_single_parts : list regex :=
  [WordB; lit_i (str "THC"); WordB; Star non_digit;
   Grp 1 thc_number; Star is_space; Chr (eqc "%")].

Definition thc_range_tail : list regex :=
  [plus non_digit; Grp 2 thc_number; Star is_space; Chr (eqc "%")].

(** A card text carrying a single value first and a range later. *)
Definition thc_two_labels : pystr := str "THC: 22% | 3.5g | THC 18%-25%".

(** A range written with the larger bound first, and a range preceded by
    a single value. *)
Definition thc_falling_range : pystr := str "THC 25% - 18%".

Definition thc_value_before_range : pystr := str "THC 5% | THC 18%-22%".

(** A number as the THC patterns read it: digits, then possibly a point
    and more digits. *)
Definition thc_numeral (x : pystr) : Prop :=
  exists whole frac,
    x = whole ++ frac /\ whole <> [] /\
    Forall (fun c => is_digit c = true) whole /\
    (frac = [] \/
     exists ds, frac = "."%char :: ds /\ ds <> [] /\
                Forall (fun c => is_digit c = true) ds).

(** The text holds a range with the bounds [first] and [second], in
    this order: the label THC in any case, no digit up to [first], a
    percent sign, a separator without digits, [second] and a percent
    sign. *)
Definition thc_range_at (card_text first second : pystr) : Prop :=
  exists pre label gap ws1 sep ws2 post,
    card_text
    = pre ++ label ++ gap ++ first ++ ws1 ++ "%"%char :: sep ++ second
      ++ ws2 ++ "%"%char :: post /\
    lower label = str "thc" /\
    Forall (fun c => non_digit c = true) gap /\
    thc_numeral first /\
    Forall (fun c => is_space c = true) ws1 /\
    sep <> [] /\ Forall (fun c => non_digit c = true) sep /\
    thc_numeral second /\
    Forall (fun c => is_space c = true) ws2.

(** The statement about a text the range pattern matches, with the
    relation between the value returned and the other bound left open. *)
Definition thc_range_statement (bound : Q -> Q -> Prop) : Prop :=
  forall (card_text : pystr) (mr : mstate),
    search THC_RANGE_RE card_text = Some mr ->
    exists first second,
      group 1 mr = Some first /\ group 2 mr = Some second /\
      thc_range_at card_text first second /\
      thc_of card_text = Some (float first) /\
      bound (float first) (float second).

(** Two listings of one product and size at different prices, and a
    listing priced at zero, with the key and rows they assemble to. *)
Definition blue_dream_link : Tools.link_obs :=
  plain_link "Blue Dream" "/product/blue-dream?size=35"
             "Blue Dream 3.5g Hybrid THC 18%-22% $35.00".

Definition blue_dream_sale_link : Tools.link_obs :=
  plain_link "Blue Dream" "/product/blue-dream" "Blue Dream 3.5G $29.00".

Definition free_sample_link : Tools.link_obs :=
  plain_link "Free Sample" "/product/free-sample" "Free Sample 3.5g $0.00".

Definition blue_dream_key : Tools.dedup_key :=
  (Py.str "Miami", Py.str "blue-dream", Some (Py.str "3.5g"),
   Py.str "Whole Flower").

Definition blue_dream_row : Tools.row :=
  Tools.Row (Py.str "FL") (Py.str "Miami") (Py.str "Whole Flower")
    (Py.str "Blue Dream") None (Some (Py.str "Hybrid")) (Some (18 # 1)%Q)
    (Some (Py.str "3.5g")) (Some (7 # 2)%Q) (Some (35 # 1)%Q)
    (Some (10 # 1)%Q)
    (Some (Py.str "https://www.trulieve.com/product/blue-dream?size=35")).

Definition blue_dream_sale_row : Tools.row :=
  Tools.Row (Py.str "FL") (Py.str "Miami") (Py.str "Whole Flower")
    (Py.str "Blue Dream") None None None
    (Some (Py.str "3.5g")) (Some (7 # 2)%Q) (Some (29 # 1)%Q)
    (Some (829 # 100)%Q)
    (Some (Py.str "https://www.trulieve.com/product/blue-dream")).

(** The longest prefix of characters of a class. *)
Definition span_of (p : ascii -> bool) (s : pystr) : pystr :=
  until (fun c => negb (p c)) s.

(** The two-digit fraction [tail] starts with, if any. *)
Definition fraction (tail : pystr) : pystr :=
  match tail with
  | dot :: d1 :: d2 :: _ =>
      if eqc "." dot && is_digit d1 && is_digit d2 then [dot; d1; d2] else []
  | _ => []
  end.

(** The currency token starting at the head of [rest], read left to right
    without backtracking: its number and the text after it. *)
Definition price_at (rest : pystr) : option (pystr * pystr) :=
  match rest with
  | c :: t =>
      if eqc "$" c then
        let after_gap := lstrip is_space t in
        let ds := span_of is_digit after_gap in
        let tail := lstrip is_digit after_gap in
        match ds with
        | [] => None
        | _ => Some (ds ++ fraction tail, skipn (length (fraction tail)) tail)
        end
      else None
  | [] => None
  end.

(** The numbers of the tokens of a text, one per position that starts
    one. *)
Fixpoint all_tokens (rest : pystr) : list pystr :=
  match rest with
  | [] => []
  | c :: t =>
      match price_at (c :: t) with
      | Some (number, _) => number :: all_tokens t
      | None => all_tokens t
      end
  end.

(** Where the greedy star stops, and the character before that point. *)
Fixpoint prev_after (p : ascii -> bool) (prev : option ascii) (rest : pystr)
    : option ascii :=
  match rest with
  | c :: t => if p c then prev_after p (Some c) t else prev
  | [] => prev
  end.

(** [(?:\.[0-9]{2})] *)
Definition fraction_re : regex :=
  cats [Chr (eqc "."); Chr is_digit; Chr is_digit].

(** A character other than the dollar sign. *)
Definition not_dollar (c : ascii) : Prop := eqc "$" c = false.

(** [number] is the number of a currency token of [blob]: a dollar sign, a
    gap accepted by [gap_ok], the longest run of digits (not empty), and
    the two-digit fraction that follows, if one does. *)
Definition currency_token (gap_ok : pystr -> Prop) (blob number : pystr)
    : Prop :=
  exists pre gap ds tail,
    blob = pre ++ "$"%char :: gap ++ ds ++ tail /\
    gap_ok gap /\
    ds ≠ [] /\
    Forall (fun c => is_digit c = true) ds /\
    (forall c, head tail = Some c -> is_digit c = false) /\
    number = ds ++ fraction tail.

(** A gap made of white space only. *)
Definition only_spaces (gap : pystr) : Prop :=
  Forall (fun c => is_space c = true) gap.

(** The statement on price extraction, for a given notion of token. *)
Definition min_price_statement (token : pystr -> pystr -> Prop) : Prop :=
  forall blob : pystr,
    ((~ exists number, token blob number) -> price_of_blob blob = None) /\
    ((exists number, token blob number) ->
     exists m,
       price_of_blob blob = Some m /\
       (exists number, token blob number /\ m = float number) /\
       (forall number, token blob number -> (m <= float number)%Q)).

(** The keys of the links of a list that assemble to a product. *)
Definition assembled_keys (urljoin : pystr -> pystr -> pystr)
    (round : Q -> Z -> Q) (store_name subcategory : pystr)
    (links : list link_obs) : list dedup_key :=
  flat_map (fun lk =>
              match assemble urljoin round store_name subcategory lk with
              | Ok (Some (key, _)) => [key]
              | _ => []
              end) links.

(* ===================================================================== *)
(** * Vocabulary of the further statements *)
(* ===================================================================== *)

Import Workflow.

(** The calls of [connect] up to and including attempt [k]. *)
Definition connect_trace (k : nat) : list connect_event :=
  flat_map (fun j => [CeAttempt; CeSleep (2 ^ j)]) (seq 0 k) ++ [CeAttempt].

(** A reply that is not a successful write. *)
Definition write_failed (r : write_reply) : Prop :=
  match r with Wrote true _ => False | _ => True end.

(** The message the [except] clauses see for a failed write. *)
Definition failure_message (r : write_reply) : pystr :=
  match r with
  | WriteRaised e => e
  | Wrote _ _ => str "write_pandas returned success=False"
  end.

(** The operations of [k] failed attempts on [table_name], each followed
    by its back-off. *)
Definition failed_attempts (table_name : pystr) (rows k : nat)
    : list db_event :=
  flat_map (fun j => [EvWrite table_name rows; EvRollback; EvCommit;
                      EvSleep (2 ^ j)]) (seq 0 k).

(** A session after [add_result] was called for each pair, in order. *)
Definition add_results (session : ScrapingSession)
    (added : list (pystr * ScrapingResult)) : ScrapingSession :=
  fold_left (fun s cr => add_result s cr.1 cr.2) added session.

(** The line [add_result] appends to [errors] for a result, if any. *)
Definition error_line (cr : pystr * ScrapingResult) : option pystr :=
  if sr_success cr.2 then None
  else match sr_error_message cr.2 with
       | Some msg => if truthy msg then Some (cr.1 ++ str ": " ++ msg)
                     else None
       | None => None
       end.


(** The names of the default categories, in order. *)
Definition default_names : list pystr := default_categories.*2.

(** A filter that selects: [None] and the empty list select nothing. *)
Definition wanted_names (categories_to_scrape : option (list pystr))
    : option (list pystr) :=
  match categories_to_scrape with
  | None | Some [] => None
  | Some wanted => Some wanted
  end.

(** A call that returned. *)
Definition returns {A} (o : outcome A) : Prop := exists a, o = Ok a.

(** A store visit carried out by [scrape_store_category_tool] on a store
    whose page cannot be reached. *)
Definition unreachable_visit (urljoin : pystr -> pystr -> pystr)
    (round : Q -> Z -> Q) (subcategory : pystr) (sv : store_visit) : Prop :=
  exists obs e,
    returns (sp_new_page obs) /\ returns (sp_wait obs) /\
    sp_store_nav obs = Raised e /\ returns (sp_close obs) /\
    sv_scrape sv
    = scrape_store_category_tool urljoin round obs (sv_name sv) subcategory.


(** Both reads of an anchor return. *)
Definition anchor_readable (a : anchor_obs) : Prop :=
  returns (an_href a) /\ returns (an_text a).

(** The entry [extract_fl_store_links] makes for an anchor it keeps. *)
Definition entry_of_anchor (urljoin : pystr -> pystr -> pystr)
    (a : anchor_obs) (entry : pystr * pystr) : Prop :=
  exists href text,
    an_href a = Ok (Some href) /\ an_text a = Ok text /\
    href ≠ [] /\
    contains (str "/dispensaries/") href = true /\
    looks_like_florida (Some href)
      (Some (strip is_space (or_empty text))) = true /\
    entry = (join (str " ") (split_ws (strip is_space (or_empty text))),
             urljoin BASE href).




(** A store whose page does not load. *)
Definition unreachable_page : store_page_obs :=
  StorePageObs (Ok ()) (Ok ())
    (Raised (str "net::ERR_CONNECTION_REFUSED")) (Ok []) (Ok ()).

Definition unreachable_store (name : string) : store_visit :=
  {| sv_name := str name;
     sv_url := str "https://www.trulieve.com/dispensaries/florida/x";
     sv_scrape :=
       scrape_store_category_tool join_url round_half_even unreachable_page
         (str name) (str "Pre-Rolls") |}.

(** A store directory: a region store, a store of another region, the
    first store linked a second time under another text, and a second
    link with the name of the first. *)
Definition anchor (href text : string) : anchor_obs :=
  AnchorObs (Ok (Some (str href))) (Ok (Some (str text))).

Definition miami_anchor : anchor_obs :=
  anchor "/dispensaries/florida/miami" "  Miami,   FL ".

Definition miami_again_anchor : anchor_obs :=
  anchor "/dispensaries/florida/miami" "Miami Flagship, FL".

Definition sample_anchors : list anchor_obs :=
  [miami_anchor;
   anchor "/dispensaries/georgia/macon" "Macon, GA";
   miami_again_anchor;
   anchor "/dispensaries/florida/miami-2" "Miami, FL"].

Definition miami_entry : pystr * pystr :=
  (str "Miami, FL",
   str "https://www.trulieve.com/dispensaries/florida/miami").

(** A category task that finds one product in one store. *)
Definition one_product_task (url name : pystr) : outcome ScrapingResult :=
  Ok {| sr_category := name;
        sr_products := [sample_product "Miami" "Pre-Rolls"];
        sr_store_count := 1; sr_total_products := 1;
        sr_success := true; sr_error_message := None |}.
(* ===================================================================== *)
(** * Properties *)
(* ===================================================================== *)

(** ** Bulk loader *)

Section BulkLoader.
Import Py Models SnowflakeClient.

Variable reply : nat -> write_reply.

Lemma insert_group_unmapped tables acc category products :
  tables !! category = None ->
  insert_group reply tables acc (category, products)
  = (<[category := no_mapping_result category]> acc.1, acc.2).
Proof. intros Hnone. unfold insert_group. now rewrite Hnone. Qed.

Lemma insert_group_other tables acc group other :
  group.1 ≠ other ->
  (insert_group reply tables acc group).1 !! other = acc.1 !! other.
Proof.
  destruct group as [category products]. simpl. intros Hne.
  unfold insert_group.
  destruct (tables !! category) as [table_name|].
  - destruct (insert_products reply products table_name acc.2) as [result c'].
    simpl. now rewrite lookup_insert_ne.
  - simpl. now rewrite lookup_insert_ne.
Qed.

(** The client a group leaves behind depends on the client it found, not on
    the results collected before it. *)
Lemma insert_group_client tables m m' c group :
  (insert_group reply tables (m, c) group).2
  = (insert_group reply tables (m', c) group).2.
Proof.
  destruct group as [category products]. unfold insert_group. simpl.
  destruct (tables !! category) as [table_name|]; [|reflexivity].
  now destruct (insert_products reply products table_name c).
Qed.

Lemma insert_group_agree tables m m' c group k :
  m !! k = m' !! k ->
  (insert_group reply tables (m, c) group).1 !! k
  = (insert_group reply tables (m', c) group).1 !! k.
Proof.
  destruct group as [category products]. unfold insert_group. simpl.
  intros Hk.
  destruct (tables !! category) as [table_name|].
  - destruct (insert_products reply products table_name c) as [result c'].
    simpl. destruct (decide (category = k)) as [->|Hne].
    + now rewrite !lookup_insert_eq.
    + now rewrite !lookup_insert_ne.
  - simpl. destruct (decide (category = k)) as [->|Hne].
    + now rewrite !lookup_insert_eq.
    + now rewrite !lookup_insert_ne.
Qed.

Lemma fold_insert_group_client tables groups : forall m m' c,
  (fold_left (insert_group reply tables) groups (m, c)).2
  = (fold_left (insert_group reply tables) groups (m', c)).2.
Proof.
  induction groups as [|g groups IH]; intros m m' c; [reflexivity|].
  simpl.
  pose proof (insert_group_client tables m m' c g) as Hc.
  destruct (insert_group reply tables (m, c) g) as [m1 c1].
  destruct (insert_group reply tables (m', c) g) as [m1' c1'].
  simpl in Hc. subst c1'. apply IH.
Qed.

Lemma fold_insert_group_agree tables groups k : forall m m' c,
  m !! k = m' !! k ->
  (fold_left (insert_group reply tables) groups (m, c)).1 !! k
  = (fold_left (insert_group reply tables) groups (m', c)).1 !! k.
Proof.
  induction groups as [|g groups IH]; intros m m' c Hk; [exact Hk|].
  simpl.
  pose proof (insert_group_client tables m m' c g) as Hc.
  pose proof (insert_group_agree tables m m' c g k Hk) as Hm.
  destruct (insert_group reply tables (m, c) g) as [m1 c1].
  destruct (insert_group reply tables (m', c) g) as [m1' c1'].
  simpl in Hc, Hm. subst c1'. now apply IH.
Qed.

Lemma fold_insert_group_absent tables groups k : forall acc,
  k ∉ groups.*1 ->
  (fold_left (insert_group reply tables) groups acc).1 !! k = acc.1 !! k.
Proof.
  induction groups as [|g groups IH]; intros acc Hk; [reflexivity|].
  simpl. rewrite fmap_cons, not_elem_of_cons in Hk. destruct Hk as [Hg Hk].
  rewrite IH by exact Hk. apply insert_group_other. congruence.
Qed.

(** C8. Loading an empty product list returns a successful result with
    [rows_inserted = 0] and leaves the client and the data store untouched:
    no write, no commit or rollback, no back-off sleep.  The same holds when
    the empty list reaches [insert_products] through
    [insert_products_by_category] under a category that has a table. *)
Theorem insert_products_empty_list :
  (forall (table_name : pystr) (c : client),
     exists result,
       insert_products reply [] table_name c = (result, c) /\
       di_success result = true /\
       di_rows_inserted result = 0 /\
       di_error_message result = None) /\
  (forall (tables : gmap pystr pystr) (category table_name : pystr)
          (c : client),
     tables !! category = Some table_name ->
     exists result,
       insert_products_by_category reply tables [(category, [])] c
       = ({[ category := result ]}, c) /\
       di_success result = true /\
       di_rows_inserted result = 0).
Proof.
  split.
  - intros table_name c. eexists. repeat split; reflexivity.
  - intros tables category table_name c Hmap. eexists.
    unfold insert_products_by_category. simpl. rewrite Hmap. simpl.
    repeat split; reflexivity.
Qed.

(** One attempt keeps the connection as it is and only adds to the
    operations; with a connection its first operation is the write. *)
Lemma attempt_insert_log products table_name c :
  connected (attempt_insert reply products table_name c).2 = connected c /\
  exists ev,
    log (attempt_insert reply products table_name c).2 = log c ++ ev /\
    (connected c = true ->
     exists ev', ev = EvWrite table_name (length products) :: ev').
Proof.
  unfold attempt_insert. destruct (connected c) eqn:Hconn; cbn [negb].
  - destruct (reply (writes c)) as [[|] nrows|e]; cbn;
      (split; [reflexivity|]); eexists;
      (split; [rewrite <- ?app_assoc; reflexivity|]); intros _; eexists;
      reflexivity.
  - cbn. split; [exact Hconn|]. exists []. split; [now rewrite app_nil_r|].
    discriminate.
Qed.

Lemma insert_loop_log attempts products table_name category : forall c,
  connected (insert_loop reply attempts products table_name category c).2
  = connected c /\
  exists ev,
    log (insert_loop reply attempts products table_name category c).2
    = log c ++ ev /\
    (connected c = true -> attempts <> [] ->
     exists ev', ev = EvWrite table_name (length products) :: ev').
Proof.
  induction attempts as [|attempt later IH]; intros c.
  - cbn. split; [reflexivity|]. exists []. split; [now rewrite app_nil_r|].
    congruence.
  - cbn [insert_loop].
    destruct (attempt_insert_log products table_name c)
      as (Hconn & ev0 & Hlog & Hwrite).
    destruct (attempt_insert reply products table_name c) as [[e|nrows] c'];
      cbn [snd] in *.
    + destruct (Nat.eqb attempt 2); cbn [snd].
      * split; [exact Hconn|]. exists ev0. split; [exact Hlog|].
        intros Hc _. now apply Hwrite.
      * destruct (IH (emit (EvSleep (2 ^ attempt)) c'))
          as (Hconn1 & ev1 & Hlog1 & _).
        split; [now rewrite Hconn1|].
        exists (ev0 ++ EvSleep (2 ^ attempt) :: ev1). split.
        -- rewrite Hlog1. cbn [emit log]. rewrite Hlog, <- !app_assoc.
           reflexivity.
        -- intros Hc _. destruct (Hwrite Hc) as [ev' ->]. eexists.
           reflexivity.
    + split; [exact Hconn|]. exists ev0. split; [exact Hlog|].
      intros Hc _. now apply Hwrite.
Qed.

Lemma insert_products_log products table_name c :
  connected (insert_products reply products table_name c).2 = connected c /\
  exists ev,
    log (insert_products reply products table_name c).2 = log c ++ ev /\
    (connected c = true -> products <> [] ->
     exists ev', ev = EvWrite table_name (length products) :: ev').
Proof.
  unfold insert_products. destruct products as [|first later].
  - cbn. split; [reflexivity|]. exists []. split; [now rewrite app_nil_r|].
    congruence.
  - destruct (insert_loop_log (seq 0 3) (first :: later) table_name
                (pd_subcategory first) c) as (Hconn & ev & Hlog & Hwrite).
    split; [exact Hconn|]. exists ev. split; [exact Hlog|].
    intros Hc _. apply Hwrite; [exact Hc|discriminate].
Qed.

Lemma insert_group_log tables acc group :
  connected (insert_group reply tables acc group).2 = connected acc.2 /\
  exists ev,
    log (insert_group reply tables acc group).2 = log acc.2 ++ ev /\
    (forall table_name,
       tables !! group.1 = Some table_name ->
       connected acc.2 = true -> group.2 <> [] ->
       exists ev', ev = EvWrite table_name (length group.2) :: ev').
Proof.
  destruct group as [category products]. unfold insert_group. cbn [fst snd].
  destruct (tables !! category) as [table_name|].
  - destruct (insert_products_log products table_name acc.2)
      as (Hconn & ev & Hlog & Hwrite).
    destruct (insert_products reply products table_name acc.2)
      as [result c']. cbn [snd] in *.
    split; [exact Hconn|]. exists ev. split; [exact Hlog|].
    intros t [= <-]. exact Hwrite.
  - cbn [snd]. split; [reflexivity|]. exists [].
    split; [now rewrite app_nil_r|]. intros t [=].
Qed.

Lemma fold_insert_group_log tables groups : forall acc,
  connected (fold_left (insert_group reply tables) groups acc).2
  = connected acc.2 /\
  exists ev,
    log (fold_left (insert_group reply tables) groups acc).2
    = log acc.2 ++ ev.
Proof.
  induction groups as [|g groups IH]; intros acc.
  - cbn. split; [reflexivity|]. exists []. now rewrite app_nil_r.
  - cbn [fold_left].
    destruct (insert_group_log tables acc g) as (Hconn & ev & Hlog & _).
    destruct (IH (insert_group reply tables acc g)) as (Hconn1 & ev1 & Hlog1).
    split; [now rewrite Hconn1|]. exists (ev ++ ev1).
    now rewrite Hlog1, Hlog, <- app_assoc.
Qed.

(** Every group with a table and a product is written to its table once
    the loop reaches it, whatever the groups around it. *)
Lemma mapped_group_is_written tables groups c other products' table_name :
  connected c = true ->
  (other, products') ∈ groups ->
  tables !! other = Some table_name -> products' <> [] ->
  EvWrite table_name (length products')
  ∈ log (insert_products_by_category reply tables groups c).2.
Proof.
  intros Hconn Hin Hmap Hne. unfold insert_products_by_category.
  apply list_elem_of_split in Hin as (pre & post & ->).
  rewrite fold_left_app. cbn [fold_left].
  destruct (fold_insert_group_log tables pre (∅, c)) as (Hc1 & _).
  cbn [snd] in Hc1.
  destruct (insert_group_log tables
              (fold_left (insert_group reply tables) pre (∅, c))
              (other, products')) as (_ & ev & Hlog & Hwrite).
  destruct (Hwrite table_name Hmap) as [ev' ->];
    [now rewrite Hc1|exact Hne|].
  destruct (fold_insert_group_log tables post
              (insert_group reply tables
                 (fold_left (insert_group reply tables) pre (∅, c))
                 (other, products'))) as (_ & ev1 & Hlog1).
  rewrite Hlog1, Hlog. set_solver.
Qed.

(** C9. A category without an entry in the table mapping gets a failed
    result carrying an error message, its group causes no data-store
    operation at all (the client is left exactly as found), and the other
    groups of the same call are processed as they would be without it:
    the result recorded for another category with a table is what
    [insert_products] returns for its products and its table, and with an
    open connection the products of every such category are written to
    its table. *)
Theorem unmapped_category_fails_immediately :
  forall (tables : gmap pystr pystr) (category : pystr)
         (products : list ProductData)
         (before after : list (pystr * list ProductData)) (c : client),
    tables !! category = None ->
    let run := insert_products_by_category reply tables in
    (forall acc,
       (insert_group reply tables acc (category, products)).2 = acc.2) /\
    (run (before ++ (category, products) :: after) c).2
      = (run (before ++ after) c).2 /\
    (forall other, other ≠ category ->
       (run (before ++ (category, products) :: after) c).1 !! other
       = (run (before ++ after) c).1 !! other) /\
    (category ∉ after.*1 ->
       (run (before ++ (category, products) :: after) c).1 !! category
       = Some (no_mapping_result category)) /\
    di_success (no_mapping_result category) = false /\
    is_Some (di_error_message (no_mapping_result category)) /\
    (forall pre post other products' table_name,
       before ++ (category, products) :: after
       = pre ++ (other, products') :: post ->
       other ∉ post.*1 ->
       tables !! other = Some table_name ->
       (run (before ++ (category, products) :: after) c).1 !! other
       = Some (insert_products reply products' table_name (run pre c).2).1) /\
    (connected c = true ->
     forall other products' table_name,
       (other, products') ∈ before ++ after ->
       tables !! other = Some table_name -> products' <> [] ->
       EvWrite table_name (length products')
       ∈ log (run (before ++ (category, products) :: after) c).2).
Proof.
  intros tables category products before after c Hnone run.
  subst run. unfold insert_products_by_category.
  split; [|split; [|split; [|split; [|split; [|split; [|split]]]]]].
  - intros acc. now rewrite insert_group_unmapped.
  - rewrite !fold_left_app. cbn [fold_left].
    rewrite insert_group_unmapped by exact Hnone.
    destruct (fold_left (insert_group reply tables) before (∅, c)) as [m0 c0].
    simpl. apply fold_insert_group_client.
  - intros other Hne. rewrite !fold_left_app. cbn [fold_left].
    rewrite insert_group_unmapped by exact Hnone.
    destruct (fold_left (insert_group reply tables) before (∅, c)) as [m0 c0].
    simpl. apply fold_insert_group_agree. now rewrite lookup_insert_ne.
  - intros Hafter. rewrite fold_left_app. cbn [fold_left].
    rewrite insert_group_unmapped by exact Hnone.
    rewrite fold_insert_group_absent by exact Hafter.
    simpl. apply lookup_insert_eq.
  - reflexivity.
  - eexists. reflexivity.
  - intros pre post other products' table_name -> Hpost Hmap.
    rewrite fold_left_app. cbn [fold_left].
    rewrite fold_insert_group_absent by exact Hpost.
    unfold insert_group at 1. rewrite Hmap.
    destruct (insert_products reply products' table_name
                (fold_left (insert_group reply tables) pre (∅, c)).2)
      as [result c'].
    cbn [fst]. apply lookup_insert_eq.
  - intros Hconn other products' table_name Hin Hmap Hne.
    apply (mapped_group_is_written tables _ c other products' table_name);
      try assumption.
    rewrite elem_of_app in Hin. rewrite elem_of_app, elem_of_cons. tauto.
Qed.

End BulkLoader.

Lemma insert_products_empty_list_witness :
  exists result,
    SnowflakeClient.insert_products_by_category (always_written 0)
      Models.default_tables [(Py.str "Pre-Rolls", [])]
      (SnowflakeClient.Client true 0 [])
    = ({[ Py.str "Pre-Rolls" := result ]}, SnowflakeClient.Client true 0 []) /\
    Models.di_success result = true /\
    Models.di_rows_inserted result = 0.
Proof.
  apply (proj2 (insert_products_empty_list (always_written 0))
           Models.default_tables (Py.str "Pre-Rolls")
           (Py.str "TL_Scrape_Pre_Rolls")).
  vm_compute. reflexivity.
Defined.

Lemma unmapped_category_fails_immediately_witness :
  (SnowflakeClient.insert_products_by_category (always_written 1)
     Models.default_tables
     [(Py.str "Edibles", [sample_product "Miami" "Edibles"]);
      (Py.str "Pre-Rolls", [sample_product "Miami" "Pre-Rolls"])]
     (SnowflakeClient.Client true 0 [])).2
  = (SnowflakeClient.insert_products_by_category (always_written 1)
       Models.default_tables
       [(Py.str "Pre-Rolls", [sample_product "Miami" "Pre-Rolls"])]
       (SnowflakeClient.Client true 0 [])).2 /\
  SnowflakeClient.EvWrite (Py.str "TL_Scrape_Pre_Rolls") 1
  ∈ SnowflakeClient.log
      (SnowflakeClient.insert_products_by_category (always_written 1)
         Models.default_tables
         [(Py.str "Edibles", [sample_product "Miami" "Edibles"]);
          (Py.str "Pre-Rolls", [sample_product "Miami" "Pre-Rolls"])]
         (SnowflakeClient.Client true 0 [])).2.
Proof.
  assert (Hnone : Models.default_tables !! Py.str "Edibles" = None)
    by (vm_compute; reflexivity).
  pose proof (unmapped_category_fails_immediately (always_written 1)
    Models.default_tables (Py.str "Edibles")
    [sample_product "Miami" "Edibles"] []
    [(Py.str "Pre-Rolls", [sample_product "Miami" "Pre-Rolls"])]
    (SnowflakeClient.Client true 0 []) Hnone) as Hc9.
  split; [exact (proj1 (proj2 Hc9))|].
  refine (proj2 (proj2 (proj2 (proj2 (proj2 (proj2 (proj2 Hc9)))))) eq_refl
            (Py.str "Pre-Rolls") [sample_product "Miami" "Pre-Rolls"]
            (Py.str "TL_Scrape_Pre_Rolls") _ _ _).
  - apply list_elem_of_In. now left.
  - vm_compute. reflexivity.
  - discriminate.
Defined.

(** ** Scrape orchestrator *)

Section Orchestrator.
Import Py Models Agent.

Lemma fold_visit stores : forall acc,
  fold_left visit stores acc
  = (acc.1 ++ flat_map products_of stores,
     acc.2 + length (filter (fun sv => returned sv = true) stores)).
Proof.
  induction stores as [|sv stores IH]; intros [ps n].
  - simpl. now rewrite app_nil_r, Nat.add_0_r.
  - cbn [fold_left flat_map]. rewrite IH, filter_cons.
    unfold visit, products_of, returned.
    destruct (sv_scrape sv) as [products|e]; simpl.
    + rewrite <- app_assoc. f_equal. lia.
    + reflexivity.
Qed.

Lemma scrape_single_category_ok stores category url max_stores :
  let visited := cap_stores max_stores stores in
  let all_products := flat_map products_of visited in
  scrape_single_category (Ok stores) category url max_stores
  = {| sr_category := category;
       sr_products := all_products;
       sr_store_count :=
         length (filter (fun sv => returned sv = true) visited);
       sr_total_products := length all_products;
       sr_success := bool_decide (0 < length all_products);
       sr_error_message :=
         if bool_decide (0 < length all_products) then None
         else Some (str "No products found for " ++ category) |}.
Proof.
  intros visited all_products. unfold scrape_single_category.
  fold visited. rewrite fold_visit. reflexivity.
Qed.





End Orchestrator.



(** ** Session *)

Section Session.
Import Py Models.

Lemma add_stores_spec result : forall all_stores,
  add_stores all_stores result
  = all_stores ∪ list_to_set (map pd_store (sr_products result)).
Proof.
  unfold add_stores.
  induction (sr_products result) as [|p ps IH]; intros all_stores; simpl.
  - set_solver.
  - rewrite IH. set_solver.
Qed.

Lemma fold_add_stores results : forall all_stores,
  fold_left add_stores results all_stores
  = all_stores
    ∪ list_to_set
        (flat_map (fun result => map pd_store (sr_products result)) results).
Proof.
  induction results as [|r results IH]; intros all_stores; simpl.
  - set_solver.
  - rewrite IH, add_stores_spec, list_to_set_app_L. set_solver.
Qed.

Lemma size_list_to_set_remove_dups (l : list pystr) :
  size (list_to_set (C := gset pystr) l) = length (remove_dups l).
Proof.
  rewrite <- (size_list_to_set (C := gset pystr) (remove_dups l))
    by apply NoDup_remove_dups.
  f_equal. apply set_eq. intros x.
  now rewrite !elem_of_list_to_set, elem_of_remove_dups.
Qed.

(** C6. After [finalize], [total_stores] is the number of distinct store
    names over all products of all category results of the session; it is
    not the sum of the per-category store counts, as the session with one
    store under two categories shows (1 against 2). *)
Theorem finalize_counts_distinct_stores :
  (forall session : ScrapingSession,
     ss_total_stores (finalize session)
     = length (remove_dups (session_store_names session))) /\
  ss_total_stores (finalize shared_store_session) = 1 /\
  list_sum (map sr_store_count
              (map_to_list (ss_results shared_store_session)).*2) = 2.
Proof.
  split; [|split].
  - intros session. unfold finalize, collect_stores, session_store_names.
    simpl. rewrite fold_add_stores, <- size_list_to_set_remove_dups.
    f_equal. set_solver.
  - vm_compute. reflexivity.
  - vm_compute. reflexivity.
Qed.

End Session.

(** ** Field extractors: product slug *)

Section Slug.
Import Py Re Tools.

Lemma eqc_true a b : eqc a b = true <-> a = b.
Proof. apply Ascii.eqb_eq. Qed.

Lemma eqc_false a b : eqc a b = false <-> a ≠ b.
Proof. apply Ascii.eqb_neq. Qed.

Lemma starts_with_spec pre : forall s,
  starts_with pre s = true <-> exists t, s = pre ++ t.
Proof.
  induction pre as [|a pre IH]; intros s; simpl.
  - split; [intros _; now exists s|reflexivity].
  - destruct s as [|b s].
    + split; [discriminate|intros [t Ht]; discriminate].
    + rewrite andb_true_iff, eqc_true, IH. split.
      * intros [-> [t ->]]. now exists t.
      * intros [t Ht]. injection Ht as -> ->. split; [reflexivity|now exists t].
Qed.

Lemma cut_unfold sep s :
  cut sep s
  = if starts_with sep s then Some ([], skipn (length sep) s)
    else match s with
         | [] => None
         | c :: t =>
             match cut sep t with
             | Some (a, b) => Some (c :: a, b)
             | None => None
             end
         end.
Proof. destruct s; reflexivity. Qed.

(** [cut] finds the leftmost occurrence of the separator. *)
Lemma cut_some sep : forall s a b,
  cut sep s = Some (a, b) ->
  s = a ++ sep ++ b /\
  forall a' b', s = a' ++ sep ++ b' -> length a <= length a'.
Proof.
  induction s as [|c t IH]; intros a b; rewrite cut_unfold.
  - destruct (starts_with sep []) eqn:Hsw; [|discriminate].
    intros [= <- <-]. apply starts_with_spec in Hsw as [u Hu].
    split; [|intros; simpl; lia].
    simpl. rewrite Hu at 2. now rewrite skipn_app, Nat.sub_diag, skipn_all.
  - destruct (starts_with sep (c :: t)) eqn:Hsw.
    + intros [= <- <-]. apply starts_with_spec in Hsw as [u Hu].
      split; [|intros; simpl; lia].
      simpl. rewrite Hu at 2. now rewrite skipn_app, Nat.sub_diag, skipn_all.
    + destruct (cut sep t) as [[a0 b0]|] eqn:Hcut; [|discriminate].
      intros [= <- <-]. destruct (IH a0 b0 eq_refl) as [Ht Hleft].
      split; [simpl; now f_equal|].
      intros [|c' a'] b' Heq.
      * exfalso. assert (starts_with sep (c :: t) = true) as Habs
          by (apply starts_with_spec; now exists b').
        congruence.
      * simpl in Heq. injection Heq as -> Heq. simpl.
        specialize (Hleft a' b' Heq). lia.
Qed.

Lemma cut_none sep : forall s,
  cut sep s = None -> forall a b, s ≠ a ++ sep ++ b.
Proof.
  induction s as [|c t IH]; rewrite cut_unfold.
  - destruct (starts_with sep []) eqn:Hsw; [discriminate|].
    intros _ a b Heq. destruct a; [|discriminate].
    assert (starts_with sep [] = true) as Habs
      by (apply starts_with_spec; now exists b).
    congruence.
  - destruct (starts_with sep (c :: t)) eqn:Hsw; [discriminate|].
    destruct (cut sep t) as [[a0 b0]|] eqn:Hcut; [discriminate|].
    intros _ [|c' a] b Heq.
    + assert (starts_with sep (c :: t) = true) as Habs
        by (apply starts_with_spec; now exists b).
      congruence.
    + simpl in Heq. injection Heq as -> Heq. now apply (IH eq_refl a b).
Qed.

Lemma split1_char_head c : forall s,
  nth_error (split1 [c] s) 0 = Some (until (eqc c) s).
Proof.
  unfold split1. induction s as [|x t IH]; [reflexivity|].
  rewrite cut_unfold. simpl starts_with. rewrite andb_true_r. simpl until.
  destruct (eqc c x); [reflexivity|].
  destruct (cut [c] t) as [[a b]|]; simpl in *; congruence.
Qed.

Lemma until_until p q : forall s,
  until q (until p s) = until (fun c => p c || q c) s.
Proof.
  induction s as [|c t IH]; [reflexivity|]. simpl.
  destruct (p c); [reflexivity|]. simpl.
  destruct (q c); [reflexivity|]. now rewrite IH.
Qed.

Lemma lstrip_spec p : forall s,
  exists l, s = l ++ lstrip p s /\
            Forall (fun c => p c = true) l /\
            forall c, head (lstrip p s) = Some c -> p c = false.
Proof.
  induction s as [|c t (l & Hl & Hall & Hhd)].
  - exists []. repeat split; [constructor|discriminate].
  - simpl. destruct (p c) eqn:Hpc.
    + exists (c :: l). repeat split; [simpl; now f_equal|now constructor|exact Hhd].
    + exists []. repeat split; [constructor|]. simpl. now intros ? [= <-].
Qed.

Lemma last_rev_head {A} (u : list A) : last (rev u) = head u.
Proof. destruct u as [|x u]; [reflexivity|]. simpl. apply last_snoc. Qed.

Lemma strip_spec p s : trimmed_of p s (strip p s).
Proof.
  unfold strip, rstrip.
  destruct (lstrip_spec p s) as (l & Hl & Hlall & Hlhd).
  destruct (lstrip_spec p (rev (lstrip p s))) as (r & Hr & Hrall & Hrhd).
  set (t := lstrip p s) in *. set (u := lstrip p (rev t)) in *.
  assert (Ht : t = rev u ++ rev r).
  { rewrite <- rev_app_distr, <- Hr. now rewrite rev_involutive. }
  exists l, (rev r). repeat split.
  - now rewrite <- Ht.
  - exact Hlall.
  - apply Forall_rev. exact Hrall.
  - intros c Hc. apply Hlhd. rewrite Ht.
    destruct (rev u); [discriminate|exact Hc].
  - intros c Hc. apply Hrhd. now rewrite <- last_rev_head.
Qed.

Lemma split1_second sep s a b :
  cut sep s = Some (a, b) -> nth_error (split1 sep s) 1 = Some b.
Proof. intros H. unfold split1. now rewrite H. Qed.

Lemma split1_no_second sep s :
  cut sep s = None -> nth_error (split1 sep s) 1 = None.
Proof. intros H. unfold split1. now rewrite H. Qed.

Lemma product_slug_marker href pre tail :
  cut product_marker href = Some (pre, tail) ->
  product_slug (Some href) = strip (eqc "/") (path_only tail).
Proof.
  intros Hcut. unfold product_slug, product_slug_try.
  cbn -[split1 strip str nth_error].
  change (str "/product/") with product_marker.
  rewrite (split1_second _ _ _ _ Hcut). cbn -[split1 strip str nth_error].
  change (str "?") with ["?"%char]. change (str "#") with ["#"%char].
  rewrite split1_char_head. cbn -[split1 strip str nth_error].
  rewrite split1_char_head. cbn -[split1 strip str nth_error].
  now rewrite until_until.
Qed.

Lemma product_slug_no_marker href :
  cut product_marker href = None -> product_slug (Some href) = href.
Proof.
  intros Hcut. unfold product_slug, product_slug_try.
  cbn -[split1 strip str nth_error].
  change (str "/product/") with product_marker.
  now rewrite (split1_no_second _ _ Hcut).
Qed.

(** C7. For a URL containing the marker "/product/", [product_slug] is the
    text after the marker's first occurrence, cut before the first "?" or
    "#" and with the slashes at both ends removed; a string without the
    marker is returned unchanged; [None] gives the empty string. *)
Theorem product_slug_spec :
  (forall href : pystr,
     (exists pre tail, href = pre ++ product_marker ++ tail) ->
     exists pre tail,
       href = pre ++ product_marker ++ tail /\
       (forall pre' tail',
          href = pre' ++ product_marker ++ tail' ->
          length pre <= length pre') /\
       trimmed_of (eqc "/") (path_only tail) (product_slug (Some href))) /\
  (forall href : pystr,
     (forall pre tail, href ≠ pre ++ product_marker ++ tail) ->
     product_slug (Some href) = href) /\
  product_slug None = [].
Proof.
  split; [|split].
  - intros href (pre0 & tail0 & Hocc).
    destruct (cut product_marker href) as [[pre tail]|] eqn:Hcut.
    + destruct (cut_some _ _ _ _ Hcut) as [Heq Hleft].
      exists pre, tail. split; [exact Heq|]. split; [exact Hleft|].
      rewrite (product_slug_marker _ _ _ Hcut). apply strip_spec.
    + exfalso. exact (cut_none _ _ Hcut _ _ Hocc).
  - intros href Hno.
    destruct (cut product_marker href) as [[pre tail]|] eqn:Hcut.
    + exfalso. destruct (cut_some _ _ _ _ Hcut) as [Heq _].
      exact (Hno _ _ Heq).
    + now apply product_slug_no_marker.
  - reflexivity.
Qed.

End Slug.

Lemma product_slug_spec_witness :
  (exists pre tail,
     Py.str "https://site.com/product/green-crack-1g?variant=123"
     = pre ++ product_marker ++ tail /\
     (forall pre' tail',
        Py.str "https://site.com/product/green-crack-1g?variant=123"
        = pre' ++ product_marker ++ tail' ->
        length pre <= length pre') /\
     trimmed_of (Py.eqc "/") (path_only tail)
       (Tools.product_slug
          (Some (Py.str "https://site.com/product/green-crack-1g?variant=123")))) /\
  Tools.product_slug (Some (Py.str "invalid-url")) = Py.str "invalid-url".
Proof.
  split.
  - apply (proj1 product_slug_spec).
    exists (Py.str "https://site.com"), (Py.str "green-crack-1g?variant=123").
    reflexivity.
  - apply (proj1 (proj2 product_slug_spec)).
    apply cut_none. vm_compute. reflexivity.
Defined.

(** ** Regular expression engine *)

Section Engine.
Import Py Re.

(** Every end state of a run is a later position of the same subject. *)
Lemma star_run_suffix p : forall rest prev caps s',
  In s' (star_run p prev rest caps) ->
  exists x, rest = x ++ m_rest s' /\ Forall (fun c => p c = true) x /\
            m_caps s' = caps.
Proof.
  induction rest as [|c t IH]; intros prev caps s'; simpl.
  - intros [<-|[]]. exists []. repeat split. constructor.
  - destruct (p c) eqn:Hpc.
    + rewrite in_app_iff. intros [Hin|[<-|[]]].
      * destruct (IH _ _ _ Hin) as (x & -> & Hall & Hcaps).
        exists (c :: x). repeat split; [now constructor|exact Hcaps].
      * exists []. repeat split. constructor.
    + intros [<-|[]]. exists []. repeat split. constructor.
Qed.

Lemma run_suffix r : forall s s',
  In s' (run r s) -> exists x, m_rest s = x ++ m_rest s'.
Proof.
  induction r as [|p|a IHa b IHb|a IHa b IHb|a IHa|p|n a IHa|];
    intros s s'; cbn [run].
  - intros [<-|[]]. now exists [].
  - destruct (m_rest s) as [|c t] eqn:Hrest; [intros []|].
    destruct (p c); [|intros []]. intros [<-|[]]. now exists [c].
  - rewrite in_flat_map. intros (s1 & H1 & H2).
    destruct (IHa _ _ H1) as [x ->]. destruct (IHb _ _ H2) as [y ->].
    exists (x ++ y). now rewrite app_assoc.
  - rewrite in_app_iff. intros [H|H]; eauto.
  - rewrite in_app_iff. intros [H|[<-|[]]]; [eauto|now exists []].
  - intros H. destruct (star_run_suffix _ _ _ _ _ H) as (x & Hx & _).
    now exists x.
  - rewrite in_map_iff. intros (s1 & <- & H1). simpl. eauto.
  - destruct (at_boundary s); [|intros []]. intros [<-|[]]. now exists [].
Qed.

Lemma consumed_app (s s' : mstate) x :
  m_rest s = x ++ m_rest s' -> consumed s s' = x.
Proof.
  intros H. unfold consumed. rewrite H, length_app.
  replace (length x + length (m_rest s') - length (m_rest s'))
    with (length x) by lia.
  now rewrite firstn_app, Nat.sub_diag, firstn_all, app_nil_r.
Qed.

Lemma flat_map_flat_map {A B C} (f : B -> list C) (g : A -> list B) l :
  flat_map f (flat_map g l) = flat_map (fun x => flat_map f (g x)) l.
Proof.
  induction l as [|x l IH]; [reflexivity|].
  simpl. now rewrite flat_map_app, IH.
Qed.

(** A run of a concatenation threads the runs of its parts. *)
Lemma run_cats_app l1 : forall l2 s,
  l2 ≠ [] ->
  run (cats (l1 ++ l2)) s = flat_map (run (cats l2)) (run (cats l1) s).
Proof.
  induction l1 as [|r l1 IH]; intros l2 s Hl2.
  - simpl. now rewrite app_nil_r.
  - destruct l1 as [|r' l1].
    + destruct l2 as [|r2 l2]; [congruence|]. reflexivity.
    + change (cats ((r :: r' :: l1) ++ l2))
        with (Cat r (cats ((r' :: l1) ++ l2))).
      change (cats (r :: r' :: l1)) with (Cat r (cats (r' :: l1))).
      cbn [run]. rewrite flat_map_flat_map. apply flat_map_ext.
      intros s1. now apply IH.
Qed.

Lemma in_run_alts rs : forall s s',
  rs ≠ [] -> In s' (run (alts rs) s) -> exists r, In r rs /\ In s' (run r s).
Proof.
  induction rs as [|r rs IH]; intros s s' Hne; [congruence|].
  destruct rs as [|r' rs].
  - intros H. exists r. split; [now left|exact H].
  - change (alts (r :: r' :: rs)) with (Alt r (alts (r' :: rs))).
    cbn [run]. rewrite in_app_iff. intros [H|H].
    + exists r. split; [now left|exact H].
    + destruct (IH s s' ltac:(discriminate) H) as (r0 & Hin & Hrun).
      exists r0. split; [now right|exact Hrun].
Qed.

(** A case-insensitive literal consumes a text equal to it up to case. *)
Lemma in_run_lit_i w : forall s s',
  In s' (run (lit_i w) s) ->
  exists x, m_rest s = x ++ m_rest s' /\ lower x = lower w /\
            m_caps s' = m_caps s.
Proof.
  induction w as [|c w IH]; intros s s'.
  - simpl. intros [<-|[]]. now exists [].
  - assert (Hchr : forall s1, In s1 (run (Chr (ichar c)) s) ->
              exists y, m_rest s = y :: m_rest s1 /\
                        lower_char y = lower_char c /\
                        m_caps s1 = m_caps s).
    { intros s1. cbn [run]. destruct (m_rest s) as [|y t]; [intros []|].
      destruct (ichar c y) eqn:Hy; [|intros []]. intros [<-|[]].
      exists y. repeat split. now apply Ascii.eqb_eq in Hy. }
    destruct w as [|c' w].
    + intros H. destruct (Hchr _ H) as (y & Hy & Hlow & Hcaps).
      exists [y]. simpl. rewrite Hlow. now repeat split.
    + change (lit_i (c :: c' :: w))
        with (Cat (Chr (ichar c)) (lit_i (c' :: w))).
      cbn [run]. rewrite in_flat_map. intros (s1 & H1 & H2).
      destruct (Hchr _ H1) as (y & Hy & Hlow & Hcaps1).
      destruct (IH _ _ H2) as (x & Hx & Hlx & Hcaps2).
      exists (y :: x). split; [rewrite Hy, Hx; reflexivity|].
      split; [|congruence].
      change (lower (y :: x)) with (lower_char y :: lower x).
      change (lower (c :: c' :: w)) with (lower_char c :: lower (c' :: w)).
      now rewrite Hlow, Hlx.
Qed.

Lemma in_run_wordb s s' : In s' (run WordB s) -> s' = s.
Proof.
  cbn [run]. destruct (at_boundary s); [|intros []]. now intros [<-|[]].
Qed.

Lemma match_at_in r prev rest m :
  match_at r prev rest = Some m -> In m (run r (MState prev rest [])).
Proof.
  unfold match_at. destruct (run r (MState prev rest [])) as [|m0 l];
    [discriminate|]. intros [= <-]. now left.
Qed.

(** A successful search is a match at some position of the subject. *)
Lemma search_from_some r : forall rest prev m,
  search_from r prev rest = Some m ->
  exists prev' pre rest',
    rest = pre ++ rest' /\ match_at r prev' rest' = Some m.
Proof.
  induction rest as [|c t IH]; intros prev m; simpl.
  - destruct (match_at r prev []) eqn:Hm; [|discriminate].
    intros [= <-]. now exists prev, [], [].
  - destruct (match_at r prev (c :: t)) eqn:Hm.
    + intros [= <-]. now exists prev, [], (c :: t).
    + intros H. destruct (IH _ _ H) as (prev' & pre & rest' & -> & Hat).
      now exists prev', (c :: pre), rest'.
Qed.

(** If one pattern matches wherever another does, its search succeeds
    whenever the other's does. *)
Lemma search_from_mono r1 r2 :
  (forall prev rest, is_Some (match_at r1 prev rest) ->
                     is_Some (match_at r2 prev rest)) ->
  forall rest prev, is_Some (search_from r1 prev rest) ->
                    is_Some (search_from r2 prev rest).
Proof.
  intros Hmono. induction rest as [|c t IH]; intros prev; simpl.
  - destruct (match_at r1 prev []) eqn:H1.
    + destruct (Hmono prev []) as [m2 ->]; [rewrite H1; eauto|]. eauto.
    + intros [? [=]].
  - destruct (match_at r1 prev (c :: t)) eqn:H1.
    + destruct (Hmono prev (c :: t)) as [m2 ->]; [rewrite H1; eauto|]. eauto.
    + intros H. destruct (match_at r2 prev (c :: t)); [eauto|]. now apply IH.
Qed.

End Engine.

(** ** Field extractors: size and grams *)

Section Size.
Import Py Re Tools.

Lemma size_tokens_lowercase : Forall (fun tok => lower tok = tok) size_tokens.
Proof. repeat constructor. Qed.

Lemma size_match_token prev rest m :
  match_at SIZE_RE prev rest = Some m ->
  exists tok, In tok size_tokens /\ lower (or_empty (group 1 m)) = tok.
Proof.
  intros Hm. apply match_at_in in Hm.
  change SIZE_RE
    with (Cat WordB (Cat (Grp 1 (alts (map lit_i size_tokens))) WordB)) in Hm.
  cbn [run] in Hm. apply in_flat_map in Hm as (s1 & H1 & Hm).
  apply in_run_wordb in H1 as ->.
  apply in_flat_map in Hm as (s2 & H2 & Hm).
  apply in_run_wordb in Hm as ->.
  apply in_map_iff in H2 as (s3 & <- & H3).
  apply in_run_alts in H3 as (r & Hr & H3); [|discriminate].
  apply in_map_iff in Hr as (tok & <- & Htok).
  apply in_run_lit_i in H3 as (x & Hx & Hlow & _).
  exists tok. split; [exact Htok|].
  unfold group, capture. simpl. rewrite (consumed_app _ _ _ Hx).
  rewrite Hlow.
  exact (proj1 (List.Forall_forall _ _) size_tokens_lowercase tok Htok).
Qed.

(** What [size_of] returns is absent or a canonical token. *)
Lemma size_of_token card_text tok :
  size_of card_text = Some tok -> In tok size_tokens.
Proof.
  unfold size_of, search.
  destruct (search_from SIZE_RE None card_text) as [m|] eqn:Hs; [|discriminate].
  intros [= <-].
  destruct (search_from_some _ _ _ _ Hs) as (prev' & pre & rest' & _ & Hat).
  destruct (size_match_token _ _ _ Hat) as (tok & Htok & <-). exact Htok.
Qed.

Lemma grams_of_token tok :
  In tok size_tokens ->
  exists g, grams_from_size (Some tok) = Some g /\ (0 < g)%Q /\
            dict_get SIZE_MAP tok = Some g.
Proof.
  intros Htok. unfold size_tokens in Htok. simpl in Htok.
  repeat (destruct Htok as [<-|Htok];
          [eexists; split; [vm_compute; reflexivity|];
           split; [reflexivity|vm_compute; reflexivity]|]).
  destruct Htok.
Qed.

End Size.

(** ** Product assembly *)

Section AssemblyFacts.
Import Py Re Tools.

Variable urljoin : pystr -> pystr -> pystr.
Variable round : Q -> Z -> Q.

(** What an assembled row holds, field by field. *)
Lemma assemble_some store_name subcategory lk key r :
  assemble urljoin round store_name subcategory lk = Ok (Some (key, r)) ->
  exists href card_text,
    lk_href lk = Ok href /\
    card_text_of lk = Ok card_text /\
    key = (store_name, product_slug (Some (or_empty href)),
           size_of card_text, subcategory) /\
    r_store r = store_name /\
    r_subcategory r = subcategory /\
    r_size_raw r = size_of card_text /\
    r_grams r = grams_from_size (size_of card_text) /\
    r_thc_pct r = thc_of card_text /\
    r_price_per_g r = price_per_g round (r_price r) (r_grams r).
Proof.
  unfold assemble, card_text_of.
  destruct (lk_text lk) as [text|e]; [|discriminate].
  cbn [mbind outcome_bind].
  destruct (truthy (strip is_space (or_empty text))); [|discriminate].
  cbn [negb].
  destruct (lk_href lk) as [href|e]; [|discriminate].
  cbn [mbind outcome_bind].
  destruct (lk_card_count lk) as [has_card|e]; [|discriminate].
  cbn [mbind outcome_bind].
  set (ct := if has_card then lk_card_inner lk else _).
  assert (Hct : ct = if has_card then lk_card_inner lk
                     else Ok (strip is_space (or_empty text)))
    by reflexivity.
  destruct ct as [card_text|e]; [|discriminate].
  cbn [mbind outcome_bind].
  destruct (extract_price_from_card lk) as [price0|e]; [|discriminate].
  cbn [mbind outcome_bind].
  destruct (lk_strain_el lk) as [strain_el|e]; [|discriminate].
  cbn [mbind outcome_bind].
  intros [= <- <-]. exists href, card_text.
  split; [reflexivity|]. split; [destruct has_card; now rewrite Hct|].
  repeat split.
Qed.

(** The rows emitted are rows that were assembled. *)
Lemma scrape_fold_rows store_name subcategory (P : row -> Prop) links :
  forall acc,
    Forall P acc.1 ->
    (forall lk key r,
       In lk links ->
       assemble urljoin round store_name subcategory lk = Ok (Some (key, r)) ->
       P r) ->
    Forall P (fold_left (scrape_step urljoin round store_name subcategory)
                links acc).1.
Proof.
  induction links as [|lk links IH]; intros acc Hacc Hall; [exact Hacc|].
  cbn [fold_left]. apply IH.
  - unfold scrape_step.
    destruct (assemble urljoin round store_name subcategory lk)
      as [[[key r]|]|e] eqn:Has; try exact Hacc.
    destruct (bool_decide (key ∈ acc.2)); [exact Hacc|]. simpl.
    apply Forall_app. split; [exact Hacc|].
    constructor; [|constructor]. eapply Hall; [now left|exact Has].
  - intros lk' key r Hin. apply Hall. now right.
Qed.

Lemma scrape_category_rows store_name subcategory (P : row -> Prop) links r :
  (forall lk key r,
     In lk links ->
     assemble urljoin round store_name subcategory lk = Ok (Some (key, r)) ->
     P r) ->
  In r (scrape_category urljoin round store_name subcategory links) -> P r.
Proof.
  intros Hall Hin. unfold scrape_category in Hin.
  eapply List.Forall_forall; [|exact Hin].
  apply scrape_fold_rows; [constructor|exact Hall].
Qed.

(** C10. In every row the category scrape emits, [size_raw] is absent or
    one of the eight canonical lowercase tokens; [grams] is present exactly
    when [size_raw] is, and then it is the [SIZE_MAP] value of that token,
    a positive number. *)
Theorem emitted_size_and_grams :
  forall (store_name subcategory : pystr) (links : list link_obs) (r : row),
    In r (scrape_category urljoin round store_name subcategory links) ->
    (r_size_raw r = None \/
     exists tok, r_size_raw r = Some tok /\ In tok size_tokens /\
                 lower tok = tok) /\
    (is_Some (r_grams r) <-> is_Some (r_size_raw r)) /\
    (forall tok, r_size_raw r = Some tok ->
       exists g, r_grams r = Some g /\ dict_get SIZE_MAP tok = Some g /\
                 (0 < g)%Q).
Proof.
  intros store_name subcategory links r Hin.
  pattern r. eapply scrape_category_rows; [|exact Hin]. clear r Hin.
  intros lk key r _ Has. cbv beta.
  destruct (assemble_some _ _ _ _ _ Has)
    as (href & card_text & _ & _ & _ & _ & _ & Hsize & Hgrams & _).
  rewrite Hgrams, Hsize.
  destruct (size_of card_text) as [tok|] eqn:Htok.
  - pose proof (size_of_token _ _ Htok) as Hin.
    destruct (grams_of_token _ Hin) as (g & Hg & Hpos & Hmap).
    split; [right; exists tok; repeat split; [exact Hin|]|].
    { exact (proj1 (List.Forall_forall _ _) size_tokens_lowercase tok Hin). }
    split; [rewrite Hg; split; eauto|].
    intros tok' [= <-]. exists g. now repeat split.
  - split; [now left|]. split.
    + split; intros [x Hx]; discriminate.
    + intros tok [=].
Qed.

End AssemblyFacts.

(** ** Field extractors: THC percentage *)

Section Thc.
Import Py Re Tools.

(** The range pattern is the single-value pattern followed by a second
    percentage, so it matches only where the single-value pattern does. *)
Lemma range_match_single_match prev rest :
  is_Some (match_at THC_RANGE_RE prev rest) ->
  is_Some (match_at THC_SINGLE_RE prev rest).
Proof.
  unfold match_at.
  change THC_RANGE_RE with (cats (thc_single_parts ++ thc_range_tail)).
  change THC_SINGLE_RE with (cats thc_single_parts).
  rewrite run_cats_app by discriminate.
  destruct (run (cats thc_single_parts) (MState prev rest [])) as [|s l].
  - simpl. intros [m [=]].
  - intros _. simpl. eauto.
Qed.

Lemma in_run_cat a b s s' :
  In s' (run (Cat a b) s) <-> exists s1, In s1 (run a s) /\ In s' (run b s1).
Proof. cbn [run]. apply in_flat_map. Qed.

Lemma in_run_chr p s s' :
  In s' (run (Chr p) s) ->
  exists c, m_rest s = c :: m_rest s' /\ p c = true /\ m_caps s' = m_caps s.
Proof.
  cbn [run]. destruct (m_rest s) as [|c t]; [intros []|].
  destruct (p c) eqn:Hc; [|intros []]. intros [<-|[]]. now exists c.
Qed.

Lemma in_run_star p s s' :
  In s' (run (Star p) s) ->
  exists x, m_rest s = x ++ m_rest s' /\
            Forall (fun c => p c = true) x /\ m_caps s' = m_caps s.
Proof. cbn [run]. apply star_run_suffix. Qed.

Lemma in_run_plus p s s' :
  In s' (run (plus p) s) ->
  exists x, m_rest s = x ++ m_rest s' /\ x <> [] /\
            Forall (fun c => p c = true) x /\ m_caps s' = m_caps s.
Proof.
  unfold plus. intros H. apply in_run_cat in H as (s1 & H1 & H2).
  apply in_run_chr in H1 as (c & Hc & Hp & Hcaps1).
  apply in_run_star in H2 as (x & Hx & Hall & Hcaps2).
  exists (c :: x). split; [now rewrite Hc, Hx|]. split; [discriminate|].
  split; [now constructor|congruence].
Qed.

Lemma in_run_thc_number s s' :
  In s' (run thc_number s) ->
  exists x, m_rest s = x ++ m_rest s' /\ thc_numeral x /\
            m_caps s' = m_caps s.
Proof.
  unfold thc_number. intros H. apply in_run_cat in H as (s1 & H1 & H2).
  apply in_run_plus in H1 as (whole & Hw & Hne & Hall & Hcaps1).
  cbn [run] in H2. apply in_app_iff in H2 as [H2|[<-|[]]].
  - apply in_flat_map in H2 as (s2 & Hdot & Hds).
    apply in_run_chr in Hdot as (c & Hc & Hp & Hcaps2).
    apply eqc_true in Hp as <-.
    apply in_run_plus in Hds as (ds & Hd & Hdne & Hdall & Hcaps3).
    exists (whole ++ "."%char :: ds). split.
    + rewrite Hw, Hc, Hd, <- app_assoc. reflexivity.
    + split; [|congruence].
      exists whole, ("."%char :: ds). repeat split; try assumption.
      right. now exists ds.
  - exists whole. split; [exact Hw|]. split; [|exact Hcaps1].
    exists whole, []. rewrite app_nil_r. repeat split; try assumption.
    now left.
Qed.

Lemma in_run_grp n r s s' :
  In s' (run (Grp n r) s) ->
  exists s1, In s1 (run r s) /\ m_rest s' = m_rest s1 /\
             m_caps s' = (n, consumed s s1) :: m_caps s1.
Proof.
  cbn [run]. rewrite in_map_iff. intros (s1 & <- & H1). now exists s1.
Qed.

(** What a match of the range pattern consumes, part by part, and what
    its two groups hold. *)
Lemma range_match_shape prev rest m :
  match_at THC_RANGE_RE prev rest = Some m ->
  exists label gap first ws1 sep second ws2,
    rest = label ++ gap ++ first ++ ws1 ++ "%"%char :: sep ++ second
           ++ ws2 ++ "%"%char :: m_rest m /\
    lower label = str "thc" /\
    Forall (fun c => non_digit c = true) gap /\
    thc_numeral first /\
    Forall (fun c => is_space c = true) ws1 /\
    sep <> [] /\ Forall (fun c => non_digit c = true) sep /\
    thc_numeral second /\
    Forall (fun c => is_space c = true) ws2 /\
    group 1 m = Some first /\ group 2 m = Some second.
Proof.
  intros Hm. apply match_at_in in Hm.
  change THC_RANGE_RE
    with (Cat WordB (Cat (lit_i (str "THC")) (Cat WordB
            (Cat (Star non_digit) (Cat (Grp 1 thc_number)
               (Cat (Star is_space) (Cat (Chr (eqc "%"))
                  (Cat (plus non_digit) (Cat (Grp 2 thc_number)
                     (Cat (Star is_space) (Chr (eqc "%")))))))))))) in Hm.
  apply in_run_cat in Hm as (s1 & H1 & Hm). apply in_run_wordb in H1 as ->.
  apply in_run_cat in Hm as (s2 & H2 & Hm).
  apply in_run_lit_i in H2 as (label & Hlabel & Hlow & Hc2).
  apply in_run_cat in Hm as (s3 & H3 & Hm). apply in_run_wordb in H3 as ->.
  apply in_run_cat in Hm as (s4 & H4 & Hm).
  apply in_run_star in H4 as (gap & Hgap & Hgapall & Hc4).
  apply in_run_cat in Hm as (s5 & H5 & Hm).
  apply in_run_grp in H5 as (s5' & H5 & Hr5 & Hc5).
  apply in_run_thc_number in H5 as (first & Hfirst & Hnum1 & Hc5').
  apply in_run_cat in Hm as (s6 & H6 & Hm).
  apply in_run_star in H6 as (ws1 & Hws1 & Hws1all & Hc6).
  apply in_run_cat in Hm as (s7 & H7 & Hm).
  apply in_run_chr in H7 as (pc1 & Hpc1 & Hp1 & Hc7).
  apply eqc_true in Hp1 as <-.
  apply in_run_cat in Hm as (s8 & H8 & Hm).
  apply in_run_plus in H8 as (sep & Hsep & Hsepne & Hsepall & Hc8).
  apply in_run_cat in Hm as (s9 & H9 & Hm).
  apply in_run_grp in H9 as (s9' & H9 & Hr9 & Hc9).
  apply in_run_thc_number in H9 as (second & Hsecond & Hnum2 & Hc9').
  apply in_run_cat in Hm as (s10 & H10 & Hm).
  apply in_run_star in H10 as (ws2 & Hws2 & Hws2all & Hc10).
  apply in_run_chr in Hm as (pc2 & Hpc2 & Hp2 & Hcm).
  apply eqc_true in Hp2 as <-.
  rewrite (consumed_app _ _ _ Hfirst) in Hc5.
  rewrite (consumed_app _ _ _ Hsecond) in Hc9.
  exists label, gap, first, ws1, sep, second, ws2.
  cbn [m_rest m_caps] in Hlabel, Hc2.
  split.
  { rewrite Hlabel, Hgap, Hfirst, <- Hr5, Hws1, Hpc1, Hsep, Hsecond, <- Hr9,
      Hws2, Hpc2. reflexivity. }
  split; [exact Hlow|].
  do 7 (split; [assumption|]).
  unfold group.
  rewrite Hcm, Hc10, Hc9, Hc9', Hc8, Hc7, Hc6, Hc5, Hc5', Hc4, Hc2.
  split; reflexivity.
Qed.

(** C4 (amended). When the range pattern matches (the single-value
    pattern then matches too), [thc_pct] is the first bound of the
    leftmost range match as written: the text holds the label THC, a
    number, a percent sign, a separator, a second number and a percent
    sign, and the value is that of the number written first, whatever the
    second is and whatever the single-value pattern would give.  When only
    the single-value pattern matches, it is that value; when neither
    matches, it is absent.  "THC 18%-22%" gives 18, and a text where the
    two patterns match at different labels gives the range's first bound
    (18) and not the single value (22). *)
Theorem thc_range_takes_precedence :
  thc_range_statement (fun _ _ => True) /\
  (forall card_text : pystr,
     (forall mr, search THC_RANGE_RE card_text = Some mr ->
        is_Some (search THC_SINGLE_RE card_text) /\
        thc_of card_text = Some (float (or_empty (group 1 mr)))) /\
     (search THC_RANGE_RE card_text = None ->
      forall ms, search THC_SINGLE_RE card_text = Some ms ->
        thc_of card_text = Some (float (or_empty (group 1 ms)))) /\
     (search THC_RANGE_RE card_text = None ->
      search THC_SINGLE_RE card_text = None ->
      thc_of card_text = None)) /\
  thc_of (str "THC 18%-22%") = Some (18 # 1)%Q /\
  ((fun m => float (or_empty (group 1 m))) <$> search THC_SINGLE_RE thc_two_labels
   = Some (22 # 1)%Q /\
   thc_of thc_two_labels = Some (18 # 1)%Q).
Proof.
  split; [|split; [|split; [|split]]].
  - intros card_text mr Hr.
    destruct (search_from_some _ _ _ _ Hr)
      as (prev' & pre & rest' & Htext & Hat).
    destruct (range_match_shape _ _ _ Hat)
      as (label & gap & first & ws1 & sep & second & ws2 & Hrest & Hlow
          & Hgap & Hn1 & Hws1 & Hne & Hsep & Hn2 & Hws2 & Hg1 & Hg2).
    exists first, second. split; [exact Hg1|]. split; [exact Hg2|].
    split; [|split; [|exact I]].
    + exists pre, label, gap, ws1, sep, ws2, (m_rest mr).
      split; [now rewrite Htext, Hrest|]. now repeat split.
    + unfold thc_of. now rewrite Hr, Hg1.
  - intros card_text. split; [|split].
    + intros mr Hr. split.
      * apply (search_from_mono _ _ range_match_single_match).
        fold (search THC_RANGE_RE card_text). rewrite Hr. eauto.
      * unfold thc_of. now rewrite Hr.
    + intros Hr ms Hs. unfold thc_of. now rewrite Hr, Hs.
    + intros Hr Hs. unfold thc_of. now rewrite Hr, Hs.
  - vm_compute. reflexivity.
  - vm_compute. reflexivity.
  - vm_compute. reflexivity.
Qed.

End Thc.

(** C4, as first stated: the first bound is not always the lower one, and
    a text holding "THC 18%-22%" does not always give 18. *)
Lemma thc_first_bound_not_lower :
  ~ thc_range_statement (fun first second => (first <= second)%Q) /\
  Tools.thc_of thc_falling_range = Some (25 # 1)%Q /\
  Tools.thc_of thc_value_before_range = Some (5 # 1)%Q.
Proof.
  split; [|split; vm_compute; reflexivity].
  intros Hclaim.
  destruct (Re.search Tools.THC_RANGE_RE thc_falling_range)
    as [mr|] eqn:Hr; [|vm_compute in Hr; discriminate].
  destruct (Hclaim thc_falling_range mr Hr)
    as (first & second & H1 & H2 & _ & _ & Hle).
  vm_compute in Hr. injection Hr as <-.
  vm_compute in H1, H2. injection H1 as <-. injection H2 as <-.
  vm_compute in Hle. now apply Hle.
Qed.

Lemma thc_range_takes_precedence_witness :
  Tools.thc_of (Py.str "THC: 15.5% - 18.2%") = Some (31 # 2)%Q.
Proof.
  destruct (Re.search Tools.THC_RANGE_RE (Py.str "THC: 15.5% - 18.2%"))
    as [mr|] eqn:Hr; [|vm_compute in Hr; discriminate].
  destruct (proj1 thc_range_takes_precedence
              (Py.str "THC: 15.5% - 18.2%") mr Hr)
    as (first & second & H1 & _ & _ & -> & _).
  vm_compute in Hr. injection Hr as <-.
  vm_compute in H1. injection H1 as <-. vm_compute. reflexivity.
Defined.

(** ** Product assembly: deduplication and price per gram *)

Section Dedup.
Import Py Re Tools.

Variable urljoin : pystr -> pystr -> pystr.
Variable round : Q -> Z -> Q.
Variable store_name subcategory : pystr.

Local Abbreviation step := (scrape_step urljoin round store_name subcategory).
Local Abbreviation scrape :=
  (scrape_category urljoin round store_name subcategory).
Local Abbreviation asm := (assemble urljoin round store_name subcategory).
Local Abbreviation assembled_keys :=
  (assembled_keys urljoin round store_name subcategory).

Lemma step_seen acc lk :
  (step acc lk).2 = acc.2 ∪ list_to_set (assembled_keys [lk]).
Proof.
  unfold scrape_step, assembled_keys. simpl.
  destruct (assemble urljoin round store_name subcategory lk)
    as [[[key r]|]|e]; simpl; try set_solver.
  destruct (bool_decide (key ∈ acc.2)) eqn:Hk; simpl.
  - apply bool_decide_eq_true in Hk. set_solver.
  - set_solver.
Qed.

Lemma fold_seen links : forall acc,
  (fold_left step links acc).2 = acc.2 ∪ list_to_set (assembled_keys links).
Proof.
  induction links as [|lk links IH]; intros acc.
  - simpl. set_solver.
  - cbn [fold_left]. rewrite IH, step_seen.
    change (lk :: links) with ([lk] ++ links).
    unfold assembled_keys. rewrite (flat_map_app _ [lk] links).
    rewrite list_to_set_app_L. set_solver.
Qed.

Lemma fold_rows_extend links : forall acc,
  exists later, (fold_left step links acc).1 = acc.1 ++ later.
Proof.
  induction links as [|lk links IH]; intros acc.
  - exists []. simpl. now rewrite app_nil_r.
  - cbn [fold_left]. destruct (IH (step acc lk)) as [later ->].
    unfold scrape_step.
    destruct (assemble urljoin round store_name subcategory lk)
      as [[[key r]|]|e]; try (now exists later).
    destruct (bool_decide (key ∈ acc.2)); [now exists later|].
    simpl. exists (r :: later). now rewrite <- app_assoc.
Qed.

Lemma step_duplicate acc lk key r :
  asm lk = Ok (Some (key, r)) -> key ∈ acc.2 -> step acc lk = acc.
Proof.
  intros Has Hin. unfold scrape_step. rewrite Has.
  now rewrite bool_decide_eq_true_2.
Qed.

Lemma step_fresh acc lk key r :
  asm lk = Ok (Some (key, r)) -> key ∉ acc.2 ->
  step acc lk = (acc.1 ++ [r], {[ key ]} ∪ acc.2).
Proof.
  intros Has Hin. unfold scrape_step. rewrite Has.
  now rewrite bool_decide_eq_false_2.
Qed.

(** C2. Within one pass over a store's category page: a product whose key
    equals that of an earlier product of the pass adds nothing, whatever its
    other fields; a product whose key differs from the keys of all earlier
    products is emitted, right after the rows emitted before it.  For a
    pass over two products: equal keys give the first row alone, different
    keys give both rows.  The key of a product is (store name, slug of its
    href, size, category). *)
Theorem first_product_per_key_is_emitted :
  (forall links1 lk1 links2 lk2 links3 key r1 r2,
     asm lk1 = Ok (Some (key, r1)) ->
     asm lk2 = Ok (Some (key, r2)) ->
     scrape (links1 ++ lk1 :: links2 ++ lk2 :: links3)
     = scrape (links1 ++ lk1 :: links2 ++ links3)) /\
  (forall links1 lk links2 key r,
     asm lk = Ok (Some (key, r)) ->
     key ∉ assembled_keys links1 ->
     exists later,
       scrape (links1 ++ lk :: links2) = scrape links1 ++ r :: later) /\
  (forall lk1 lk2 key1 key2 r1 r2,
     asm lk1 = Ok (Some (key1, r1)) ->
     asm lk2 = Ok (Some (key2, r2)) ->
     (key1 = key2 -> scrape [lk1; lk2] = [r1]) /\
     (key1 ≠ key2 -> scrape [lk1; lk2] = [r1; r2])) /\
  (forall lk key r,
     asm lk = Ok (Some (key, r)) ->
     exists href,
       lk_href lk = Ok href /\
       key = (store_name, product_slug (Some (or_empty href)),
              r_size_raw r, subcategory) /\
       r_store r = store_name /\ r_subcategory r = subcategory).
Proof.
  split; [|split; [|split]].
  - intros links1 lk1 links2 lk2 links3 key r1 r2 H1 H2.
    unfold scrape_category.
    f_equal.
    replace (links1 ++ lk1 :: links2 ++ lk2 :: links3)
      with ((links1 ++ lk1 :: links2) ++ lk2 :: links3)
      by (rewrite <- app_assoc; reflexivity).
    replace (links1 ++ lk1 :: links2 ++ links3)
      with ((links1 ++ lk1 :: links2) ++ links3)
      by (rewrite <- app_assoc; reflexivity).
    rewrite (fold_left_app _ _ (lk2 :: links3)), (fold_left_app _ _ links3).
    cbn [fold_left]. f_equal.
    apply (step_duplicate _ _ key r2 H2).
    rewrite fold_seen. apply elem_of_union_r, elem_of_list_to_set.
    unfold assembled_keys. rewrite flat_map_app. simpl.
    rewrite H1. set_solver.
  - intros links1 lk links2 key r Has Hfresh.
    unfold scrape_category.
    rewrite fold_left_app. cbn [fold_left].
    assert (Hnot : key ∉ (fold_left step links1 ([], ∅)).2).
    { rewrite fold_seen. simpl. rewrite elem_of_union, elem_of_list_to_set.
      intros [Hin|Hin]; [set_solver|contradiction]. }
    rewrite (step_fresh _ _ _ _ Has Hnot).
    destruct (fold_rows_extend links2
                ((fold_left step links1 ([], ∅)).1 ++ [r],
                 {[ key ]} ∪ (fold_left step links1 ([], ∅)).2))
      as [later ->].
    simpl. exists later. now rewrite <- app_assoc.
  - intros lk1 lk2 key1 key2 r1 r2 H1 H2.
    unfold scrape_category. cbn [fold_left].
    rewrite (step_fresh _ _ _ _ H1) by set_solver. simpl. split.
    + intros <-. now rewrite (step_duplicate _ _ _ _ H2) by set_solver.
    + intros Hne. now rewrite (step_fresh _ _ _ _ H2) by set_solver.
  - intros lk key r Has.
    destruct (assemble_some _ _ _ _ _ _ _ Has)
      as (href & card_text & Hhref & _ & Hkey & Hst & Hsub & Hsize & _).
    exists href. rewrite Hsize. now repeat split.
Qed.

(** When the price per gram of an emitted row is present: both price and
    grams are present and the price is not zero; it is then
    [round(price / grams, 2)]. *)
Lemma emitted_price_per_g links r :
  In r (scrape links) ->
  r_price_per_g r
  = match r_price r, r_grams r with
    | Some p, Some g =>
        if Qeq_bool p 0 then None else Some (round (p / g)%Q 2)
    | _, _ => None
    end.
Proof.
  intros Hin. pattern r. eapply scrape_category_rows; [|exact Hin].
  clear r Hin. intros lk key r _ Has. cbv beta.
  destruct (assemble_some _ _ _ _ _ _ _ Has)
    as (href & card_text & _ & _ & _ & _ & _ & Hsize & Hgrams & _ & Hppg).
  rewrite Hppg. unfold price_per_g.
  destruct (r_price r) as [p|]; [|reflexivity].
  destruct (r_grams r) as [g|] eqn:Hg; [|reflexivity].
  assert (Hpos : float_truthy g = true).
  { destruct (size_of card_text) as [tok|] eqn:Htok; [|discriminate].
    destruct (grams_of_token _ (size_of_token _ _ Htok))
      as (g' & Hg' & Hpos & _).
    assert (g' = g) as -> by congruence.
    unfold float_truthy. apply negb_true_iff.
    destruct (Qeq_bool g 0) eqn:Hz; [|reflexivity].
    apply Qeq_bool_eq in Hz. rewrite Hz in Hpos. discriminate. }
  rewrite Hpos, andb_true_r. unfold float_truthy.
  now destruct (Qeq_bool p 0).
Qed.

End Dedup.

Lemma first_product_per_key_is_emitted_witness :
  Tools.scrape_category join_url round_half_even (Py.str "Miami")
    (Py.str "Whole Flower") [blue_dream_link; blue_dream_sale_link]
  = [blue_dream_row].
Proof.
  refine (proj1 (proj1 (proj2 (proj2 (first_product_per_key_is_emitted
            join_url round_half_even (Py.str "Miami") (Py.str "Whole Flower"))))
         blue_dream_link blue_dream_sale_link blue_dream_key blue_dream_key
         blue_dream_row blue_dream_sale_row _ _) eq_refl);
    vm_compute; reflexivity.
Defined.

Lemma emitted_size_and_grams_witness :
  (Tools.r_size_raw blue_dream_row = None \/
   exists tok, Tools.r_size_raw blue_dream_row = Some tok /\
               In tok Tools.size_tokens /\ Py.lower tok = tok) /\
  (is_Some (Tools.r_grams blue_dream_row)
   <-> is_Some (Tools.r_size_raw blue_dream_row)) /\
  (forall tok, Tools.r_size_raw blue_dream_row = Some tok ->
     exists g, Tools.r_grams blue_dream_row = Some g /\
               Tools.dict_get Tools.SIZE_MAP tok = Some g /\ (0 < g)%Q).
Proof.
  apply (emitted_size_and_grams join_url round_half_even (Py.str "Miami")
           (Py.str "Whole Flower") [blue_dream_link] blue_dream_row).
  vm_compute. left. reflexivity.
Defined.

(** C1, at a zero price. A card offering 3.5g for $0.00 is emitted with
    price 0 and grams 3.5, both present, and without a price per gram,
    whichever rounding function is in use: the test [price and grams]
    treats the price 0.0 as absent. *)
Theorem zero_price_loses_price_per_gram :
  forall (urljoin : Py.pystr -> Py.pystr -> Py.pystr) (round : Q -> Z -> Q),
  exists r,
    Tools.scrape_category urljoin round (Py.str "Miami")
      (Py.str "Whole Flower") [free_sample_link] = [r] /\
    Tools.r_price r = Some (0 # 1)%Q /\
    Tools.r_grams r = Some (7 # 2)%Q /\
    Tools.r_price_per_g r = None.
Proof.
  intros urljoin round. eexists. split; [vm_compute; reflexivity|].
  repeat split.
Qed.

(** ** Field extractors: price *)

Section Price.
Import Py Re Tools.

Lemma space_not_digit c : is_space c = true -> is_digit c = false.
Proof.
  destruct c as [[] [] [] [] [] [] [] []]; vm_compute; congruence.
Qed.

Lemma span_lstrip p : forall s, s = span_of p s ++ lstrip p s.
Proof.
  unfold span_of. induction s as [|c t IH]; [reflexivity|].
  simpl. destruct (p c); simpl; [now f_equal|reflexivity].
Qed.

Lemma span_all p : forall s, Forall (fun c => p c = true) (span_of p s).
Proof.
  unfold span_of. induction s as [|c t IH]; [constructor|].
  simpl. destruct (p c) eqn:Hc; simpl; [now constructor|constructor].
Qed.

Lemma lstrip_head p : forall s c, head (lstrip p s) = Some c -> p c = false.
Proof.
  induction s as [|x t IH]; intros c; [discriminate|].
  simpl. destruct (p x) eqn:Hx; [apply IH|]. now intros [= <-].
Qed.

Lemma lstrip_app p l r :
  Forall (fun c => p c = true) l ->
  (forall c, head r = Some c -> p c = false) ->
  lstrip p (l ++ r) = r.
Proof.
  intros Hall Hr. induction Hall as [|x l Hx _ IH]; simpl.
  - destruct r as [|c r]; [reflexivity|]. simpl.
    now rewrite (Hr c eq_refl).
  - now rewrite Hx.
Qed.

Lemma span_app p l r :
  Forall (fun c => p c = true) l ->
  (forall c, head r = Some c -> p c = false) ->
  span_of p (l ++ r) = l.
Proof.
  unfold span_of. intros Hall Hr. induction Hall as [|x l Hx _ IH]; simpl.
  - destruct r as [|c r]; [reflexivity|]. simpl.
    now rewrite (Hr c eq_refl).
  - rewrite Hx. simpl. now f_equal.
Qed.

Lemma fraction_prefix tail :
  tail = fraction tail ++ skipn (length (fraction tail)) tail.
Proof.
  unfold fraction. destruct tail as [|dot [|d1 [|d2 t]]]; try reflexivity.
  now destruct (eqc "." dot && is_digit d1 && is_digit d2).
Qed.

Lemma star_run_head p : forall rest prev caps,
  exists tl,
    star_run p prev rest caps
    = MState (prev_after p prev rest) (lstrip p rest) caps :: tl.
Proof.
  induction rest as [|c t IH]; intros prev caps; simpl.
  - now exists [].
  - destruct (p c).
    + destruct (IH (Some c) caps) as [tl ->]. eexists. reflexivity.
    + now exists [].
Qed.

(** When what follows fails on every position the star could give back,
    only the longest repetition counts. *)
Lemma star_run_skip {B} p (f : mstate -> list B) caps :
  (forall prev c t, p c = true -> f (MState prev (c :: t) caps) = []) ->
  forall rest prev,
    flat_map f (star_run p prev rest caps)
    = f (MState (prev_after p prev rest) (lstrip p rest) caps).
Proof.
  intros Hf. induction rest as [|c t IH]; intros prev; simpl.
  - apply app_nil_r.
  - destruct (p c) eqn:Hc.
    + rewrite flat_map_app, IH. simpl. rewrite (Hf _ _ _ Hc).
      now rewrite !app_nil_r.
    + simpl. apply app_nil_r.
Qed.

Lemma run_fraction s :
  exists p,
    head (run (Opt fraction_re) s)
    = Some (MState p (skipn (length (fraction (m_rest s))) (m_rest s))
                   (m_caps s)).
Proof.
  destruct s as [prev rest caps]. unfold fraction_re, fraction. cbn [cats run].
  cbn [m_rest m_caps].
  destruct rest as [|dot [|d1 [|d2 t]]]; cbn [m_rest].
  - now exists prev.
  - destruct (eqc "." dot); simpl; now exists prev.
  - destruct (eqc "." dot); simpl; [|now exists prev].
    destruct (is_digit d1); simpl; now exists prev.
  - destruct (eqc "." dot); simpl; [|now exists prev].
    destruct (is_digit d1); simpl; [|now exists prev].
    destruct (is_digit d2); simpl; [|now exists prev].
    now exists (Some d2).
Qed.

Lemma run_price_number_none s :
  (forall c, head (m_rest s) = Some c -> is_digit c = false) ->
  run price_number s = [].
Proof.
  intros Hhd. unfold price_number, plus. cbn [run].
  destruct (m_rest s) as [|c t]; [reflexivity|].
  now rewrite (Hhd c eq_refl).
Qed.

Lemma run_price_number_some s d t :
  m_rest s = d :: t -> is_digit d = true ->
  exists p,
    head (run price_number s)
    = Some (MState p
              (skipn (length (fraction (lstrip is_digit t)))
                     (lstrip is_digit t))
              (m_caps s)).
Proof.
  intros Hrest Hd. unfold price_number, plus.
  change (Opt (cats [Chr (eqc "."); Chr is_digit; Chr is_digit]))
    with (Opt fraction_re).
  cbn [run]. rewrite Hrest, Hd. cbn [flat_map advance m_prev m_rest m_caps].
  rewrite app_nil_r.
  destruct (star_run_head is_digit t (Some d) (m_caps s)) as [tl ->].
  cbn [flat_map].
  destruct (run_fraction
              (MState (prev_after is_digit (Some d) t) (lstrip is_digit t)
                      (m_caps s))) as [p Hp].
  cbn [m_rest m_caps run] in Hp.
  destruct (run fraction_re
              (MState (prev_after is_digit (Some d) t) (lstrip is_digit t)
                      (m_caps s))
            ++ [MState (prev_after is_digit (Some d) t) (lstrip is_digit t)
                       (m_caps s)]) as [|s4 l]; [discriminate|].
  simpl in Hp. injection Hp as ->. now exists p.
Qed.

(** [PRICE_RE] anchored at a position finds the token [price_at] reads
    there. *)
Lemma match_at_price prev rest :
  match price_at rest with
  | Some (number, after) =>
      exists p,
        match_at PRICE_RE prev rest = Some (MState p after [(1, number)])
  | None => match_at PRICE_RE prev rest = None
  end.
Proof.
  unfold match_at, price_at.
  change PRICE_RE
    with (Cat (Chr (eqc "$")) (Cat (Star is_space) (Grp 1 price_number))).
  cbn [run]. cbn [m_rest].
  destruct rest as [|c t]; [reflexivity|].
  destruct (eqc "$" c); [|reflexivity].
  cbn [flat_map advance m_prev m_rest m_caps]. rewrite app_nil_r.
  rewrite star_run_skip.
  2:{ intros prev' c' t' Hc'. rewrite run_price_number_none; [reflexivity|].
      simpl. intros ? [= <-]. now apply space_not_digit. }
  set (after_gap := lstrip is_space t).
  set (s2 := MState (prev_after is_space (Some c) t) after_gap []).
  pose proof (span_lstrip is_digit after_gap) as Hsplit.
  destruct after_gap as [|d t2] eqn:Hgap.
  - rewrite run_price_number_none; [reflexivity|]. subst s2. simpl.
    discriminate.
  - destruct (is_digit d) eqn:Hd.
    + destruct (run_price_number_some s2 d t2 eq_refl Hd) as [p Hp].
      destruct (run price_number s2) as [|s4 l] eqn:Hrun; [discriminate|].
      simpl in Hp. injection Hp as ->.
      assert (Hds : span_of is_digit (d :: t2) = d :: span_of is_digit t2)
        by (unfold span_of; simpl; now rewrite Hd).
      assert (Hls : lstrip is_digit (d :: t2) = lstrip is_digit t2)
        by (simpl; now rewrite Hd).
      rewrite Hds, Hls in *. exists p. cbn [map head].
      unfold capture. cbn [m_prev m_rest m_caps]. do 4 f_equal.
      apply (consumed_app s2). subst s2. cbn [m_rest].
      rewrite <- app_assoc, <- fraction_prefix. exact Hsplit.
    + assert (Hds : span_of is_digit (d :: t2) = [])
        by (unfold span_of; simpl; now rewrite Hd).
      rewrite Hds.
      rewrite run_price_number_none; [reflexivity|]. subst s2. simpl.
      now intros ? [= <-].
Qed.

(** The text a token spans after its dollar sign holds no dollar sign. *)
Lemma price_at_span c t number after :
  price_at (c :: t) = Some (number, after) ->
  exists x, t = x ++ after /\ Forall not_dollar x.
Proof.
  unfold price_at. destruct (eqc "$" c); [|discriminate].
  set (after_gap := lstrip is_space t).
  destruct (span_of is_digit after_gap) as [|d ds] eqn:Hds; [discriminate|].
  intros [= _ <-].
  exists (span_of is_space t ++ (d :: ds)
          ++ fraction (lstrip is_digit after_gap)).
  split.
  - rewrite <- !app_assoc, <- fraction_prefix, <- Hds.
    rewrite <- (span_lstrip is_digit after_gap). apply span_lstrip.
  - rewrite !Forall_app. repeat split.
    + eapply Forall_impl; [apply span_all|]. intros x Hx.
      destruct x as [[] [] [] [] [] [] [] []]; vm_compute in Hx |- *;
        congruence.
    + rewrite <- Hds. eapply Forall_impl; [apply span_all|]. intros x Hx.
      destruct x as [[] [] [] [] [] [] [] []]; vm_compute in Hx |- *;
        congruence.
    + unfold fraction.
      destruct (lstrip is_digit after_gap) as [|dot [|d1 [|d2 r]]];
        try constructor.
      destruct (eqc "." dot) eqn:Hdot; simpl; [|constructor].
      destruct (is_digit d1) eqn:H1; simpl; [|constructor].
      destruct (is_digit d2) eqn:H2; simpl; [|constructor].
      apply eqc_true in Hdot as <-.
      repeat constructor;
        [destruct d1 as [[] [] [] [] [] [] [] []]
        |destruct d2 as [[] [] [] [] [] [] [] []]];
        vm_compute in H1, H2 |- *; congruence.
Qed.

Lemma price_at_not_dollar c t :
  not_dollar c -> price_at (c :: t) = None.
Proof. unfold not_dollar, price_at. now intros ->. Qed.

(** [finditer] reports one match per token, in order. *)
Lemma finditer_price : forall rest skip prev,
  Forall not_dollar (firstn skip rest) ->
  map (group 1) (finditer_from PRICE_RE skip prev rest)
  = map Some (all_tokens rest).
Proof.
  induction rest as [|c t IH]; intros skip prev Hskip.
  - destruct skip; [|reflexivity]. cbn [finditer_from].
    pose proof (match_at_price prev []) as Hm. cbn [price_at] in Hm.
    now rewrite Hm.
  - destruct skip as [|k].
    + cbn [finditer_from all_tokens].
      pose proof (match_at_price prev (c :: t)) as Hm.
      destruct (price_at (c :: t)) as [[number after]|] eqn:Hat.
      * destruct Hm as [p ->].
        destruct (price_at_span _ _ _ _ Hat) as (x & Ht & Hx).
        cbn [map m_rest]. f_equal.
        replace (length (c :: t) - length after - 1) with (length x)
          by (rewrite Ht; simpl; rewrite length_app; lia).
        apply IH. rewrite Ht, firstn_app, Nat.sub_diag, firstn_all.
        simpl. now rewrite app_nil_r.
      * rewrite Hm. apply IH. constructor.
    + cbn [finditer_from all_tokens]. simpl in Hskip.
      apply Forall_cons_iff in Hskip as [Hc Hskip].
      rewrite (price_at_not_dollar _ _ Hc). now apply IH.
Qed.

Lemma price_values_tokens blob :
  price_values blob = map float (all_tokens blob).
Proof.
  unfold price_values, finditer.
  pose proof (finditer_price blob 0 None (List.Forall_nil _)) as H.
  revert H. generalize (finditer_from PRICE_RE 0 None blob).
  generalize (all_tokens blob).
  induction l as [|g l IH]; intros [|m ms]; simpl; try discriminate;
    [reflexivity|].
  intros [= Hg Hrest]. rewrite Hg. simpl. f_equal. now apply IH.
Qed.

Lemma in_all_tokens number : forall blob,
  In number (all_tokens blob) <->
  exists pre tail after,
    blob = pre ++ tail /\ price_at tail = Some (number, after).
Proof.
  induction blob as [|c t IH].
  - simpl. split; [intros []|].
    intros (pre & tail & after & Heq & Hat).
    destruct pre, tail; discriminate.
  - cbn [all_tokens]. split.
    + destruct (price_at (c :: t)) as [[n a]|] eqn:Hat.
      * intros [<-|Hin].
        -- now exists [], (c :: t), a.
        -- apply IH in Hin as (pre & tail & after & -> & Hat').
           now exists (c :: pre), tail, after.
      * intros Hin.
        apply IH in Hin as (pre & tail & after & -> & Hat').
        now exists (c :: pre), tail, after.
    + intros (pre & tail & after & Heq & Hat').
      destruct pre as [|c' pre].
      * simpl in Heq. subst tail. rewrite Hat'. now left.
      * simpl in Heq. injection Heq as <- ->.
        assert (In number (all_tokens (pre ++ tail))) as Hin
          by (apply IH; now exists pre, tail, after).
        destruct (price_at (c :: pre ++ tail)) as [[n a]|];
          [now right|exact Hin].
Qed.

Lemma price_at_token tail number :
  (exists after, price_at tail = Some (number, after)) <->
  exists gap ds rest,
    tail = "$"%char :: gap ++ ds ++ rest /\
    only_spaces gap /\ ds ≠ [] /\
    Forall (fun c => is_digit c = true) ds /\
    (forall c, head rest = Some c -> is_digit c = false) /\
    number = ds ++ fraction rest.
Proof.
  split.
  - intros [after Hat]. unfold price_at in Hat.
    destruct tail as [|c t]; [discriminate|].
    destruct (eqc "$" c) eqn:Hc; [|discriminate].
    apply eqc_true in Hc as <-.
    set (after_gap := lstrip is_space t) in *.
    destruct (span_of is_digit after_gap) as [|d ds] eqn:Hds; [discriminate|].
    injection Hat as <- _.
    exists (span_of is_space t), (d :: ds), (lstrip is_digit after_gap).
    split.
    { f_equal. rewrite <- Hds, <- (span_lstrip is_digit after_gap).
      apply span_lstrip. }
    split; [apply span_all|]. split; [discriminate|].
    split; [rewrite <- Hds; apply span_all|].
    split; [apply lstrip_head|reflexivity].
  - intros (gap & ds & rest & -> & Hgap & Hne & Hds & Hrest & ->).
    assert (Hhd : forall c, head (ds ++ rest) = Some c -> is_space c = false).
    { intros c Hc. destruct ds as [|d ds]; [congruence|].
      simpl in Hc. injection Hc as <-.
      apply Forall_cons_iff in Hds as [Hd _].
      destruct (is_space d) eqn:Hsp; [|reflexivity].
      apply space_not_digit in Hsp. congruence. }
    eexists. unfold price_at.
    change (eqc "$" "$") with true. cbv iota.
    rewrite (lstrip_app is_space gap (ds ++ rest) Hgap Hhd).
    rewrite (span_app is_digit ds rest Hds Hrest).
    rewrite (lstrip_app is_digit ds rest Hds Hrest).
    cbv zeta. destruct ds; [congruence|reflexivity].
Qed.

Lemma token_in_all_tokens blob number :
  currency_token only_spaces blob number <-> In number (all_tokens blob).
Proof.
  rewrite in_all_tokens. split.
  - intros (pre & gap & ds & tail & -> & Hgap & Hne & Hds & Htail & Hn).
    destruct (proj2 (price_at_token ("$"%char :: gap ++ ds ++ tail) number))
      as [after Hat].
    { now exists gap, ds, tail. }
    now exists pre, ("$"%char :: gap ++ ds ++ tail), after.
  - intros (pre & tail & after & -> & Hat).
    destruct (proj1 (price_at_token tail number))
      as (gap & ds & rest & -> & Hgap & Hne & Hds & Hrest & Hn);
      [now exists after|].
    now exists pre, gap, ds, rest.
Qed.

Lemma fold_min_spec vs : forall v,
  let m := fold_left (fun m x => if Qle_bool m x then m else x) vs v in
  In m (v :: vs) /\ forall x, In x (v :: vs) -> (m <= x)%Q.
Proof.
  induction vs as [|y vs IH]; intros v; simpl.
  - split; [now left|]. intros x [<-|[]]. apply Qle_refl.
  - destruct (Qle_bool v y) eqn:Hle.
    + destruct (IH v) as [Hin Hmin]. split.
      * destruct Hin as [<-|Hin]; [now left|now right; right].
      * intros x [<-|[<-|Hx]].
        -- apply Hmin. now left.
        -- apply Qle_trans with v; [apply Hmin; now left|].
           now apply Qle_bool_iff.
        -- apply Hmin. now right.
    + destruct (IH y) as [Hin Hmin]. split.
      * destruct Hin as [<-|Hin]; [now right; left|now right; right].
      * intros x [<-|[<-|Hx]].
        -- apply Qle_trans with y; [apply Hmin; now left|].
           apply Qlt_le_weak, Qnot_le_lt. intros Habs.
           apply Qle_bool_iff in Habs. congruence.
        -- apply Hmin. now left.
        -- apply Hmin. now right.
Qed.

Lemma min_list_spec vs m :
  min_list vs = Some m -> In m vs /\ forall x, In x vs -> (m <= x)%Q.
Proof.
  destruct vs as [|v vs]; [discriminate|]. simpl. intros [= <-].
  apply fold_min_spec.
Qed.

(** C3 (amended). For every text, the price extracted is the smallest value
    among its currency tokens, a token being a dollar sign, optional white
    space, the longest run of digits and a two-digit fraction when one
    follows; it is absent when the text holds no such token. *)
Theorem price_is_minimum_of_tokens :
  min_price_statement (currency_token only_spaces).
Proof.
  intros blob. unfold price_of_blob. rewrite price_values_tokens. split.
  - intros Hnone. destruct (all_tokens blob) as [|n ns] eqn:Htok;
      [reflexivity|].
    exfalso. apply Hnone. exists n. apply token_in_all_tokens.
    rewrite Htok. now left.
  - intros [n Hn]. apply token_in_all_tokens in Hn.
    destruct (min_list (map float (all_tokens blob))) as [m|] eqn:Hmin.
    + destruct (min_list_spec _ _ Hmin) as [Hin Hle].
      exists m. split; [reflexivity|]. split.
      * apply in_map_iff in Hin as (number & <- & Hin).
        exists number. split; [now apply token_in_all_tokens|reflexivity].
      * intros number Hnum. apply Hle, in_map.
        now apply token_in_all_tokens.
    + destruct (all_tokens blob); [destruct Hn|discriminate].
Qed.

End Price.

(** C3, as first stated: with tokens read as a dollar sign directly followed
    by digits, the text "$ 5" holds no token, yet a price is extracted
    from it. *)
Lemma price_found_after_gap :
  ~ min_price_statement (currency_token (fun gap => gap = [])).
Proof.
  intros Hclaim. destruct (Hclaim (Py.str "$ 5")) as [Hnone _].
  assert (Habs : Tools.price_of_blob (Py.str "$ 5") = None).
  { apply Hnone. intros (number & pre & gap & ds & tail & Heq & -> & Hne
                         & Hds & _).
    destruct ds as [|d ds]; [congruence|].
    apply Forall_cons_iff in Hds as [Hd _].
    change (Py.str "$ 5") with ["$"; " "; "5"]%char in Heq.
    destruct pre as [|c0 [|c1 [|c2 pre]]]; simpl in Heq.
    - injection Heq as <-. vm_compute in Hd. discriminate.
    - discriminate.
    - discriminate.
    - injection Heq as _ _ _ Heq. destruct pre; discriminate. }
  vm_compute in Habs. discriminate.
Qed.

Lemma price_is_minimum_of_tokens_witness :
  exists m,
    price_of_blob (str "Regular $45.00, Sale $35.00") = Some m /\
    (exists number,
       currency_token only_spaces (str "Regular $45.00, Sale $35.00") number /\
       m = float number) /\
    (forall number,
       currency_token only_spaces (str "Regular $45.00, Sale $35.00") number ->
       (m <= float number)%Q).
Proof.
  apply (proj2 (price_is_minimum_of_tokens (str "Regular $45.00, Sale $35.00"))).
  exists (str "45.00"), (str "Regular "), [], (str "45"),
         (str ".00, Sale $35.00").
  split; [reflexivity|]. split; [constructor|]. split; [discriminate|].
  split; [repeat constructor|]. split; [|reflexivity].
  intros c Hc. vm_compute in Hc. injection Hc as <-. reflexivity.
Defined.

(* ===================================================================== *)
(** * Further properties of the code *)
(* ===================================================================== *)

(** ** Data-store client *)

Section ClientFacts.

Variable reply : nat -> write_reply.

Ltac retry_done :=
  repeat split; try lia; try reflexivity;
  try (let j := fresh "j" in
       let Hj := fresh "Hj" in
       intros j Hj; destruct j as [|[|j]]; try lia;
       rewrite ?Nat.add_0_r, ?Nat.add_1_r;
       repeat match goal with
              | H : reply ?x = _ |- context [reply ?x] => rewrite H
              end;
       exact I);
  try (f_equal; [lia | repeat rewrite <- app_assoc; reflexivity]).

(** X1. [connect] calls the connector at most three times, sleeping 1 and
    then 2 seconds between the calls: it stops at the first call that does
    not fail with a data-store error, returns with the connection open if
    that call connected and raises its exception otherwise; the third
    data-store error is raised too. *)
Theorem connect_stops_at_first_decisive_reply :
  forall (answer : nat -> connect_reply) (c : client),
  exists k,
    k < 3 /\
    (forall j, j < k -> exists e, answer j = ConnectFailed e) /\
    (connect answer c).2 = connect_trace k /\
    (connect answer c).1
    = match answer k with
      | Connected => Ok (Client true (writes c) (log c))
      | ConnectFailed e => Raised e
      | ConnectCrashed e => Raised e
      end /\
    (forall e, answer k = ConnectFailed e -> k = 2).
Proof.
  intros answer c. unfold connect. cbn [seq connect_loop].
  destruct (answer 0) as [|e0|e0] eqn:H0.
  - exists 0. rewrite H0. repeat split; try lia; discriminate.
  - cbn [Nat.eqb]. destruct (answer 1) as [|e1|e1] eqn:H1.
    + exists 1. rewrite H1. repeat split; try lia; try discriminate.
      intros j Hj. assert (j = 0) as -> by lia. eauto.
    + cbn [Nat.eqb]. destruct (answer 2) as [|e2|e2] eqn:H2;
        exists 2; rewrite H2; (repeat split; try lia; try discriminate);
        intros j Hj;
        (destruct j as [|[|j]]; [eauto|eauto|lia]).
    + exists 1. rewrite H1. repeat split; try lia; try discriminate.
      intros j Hj. assert (j = 0) as -> by lia. eauto.
  - exists 0. rewrite H0. repeat split; try lia; discriminate.
Qed.

(** X2. With an open connection, loading a non-empty list makes at most
    three write attempts.  It stops at the first successful write and
    reports its row count; every failed write is rolled back, every write
    is committed after, and the back-off is 1 then 2 seconds; after a third
    failure it returns a failed result carrying the last error instead of
    raising.  The category reported is the subcategory of the first
    product. *)
Theorem insert_products_retries :
  forall (first : ProductData) (later : list ProductData)
         (table_name : pystr) (c : client),
    connected c = true ->
    let products := first :: later in
    let rows := length products in
    let run := insert_products reply products table_name c in
    exists k,
      k < 3 /\
      (forall j, j < k -> write_failed (reply (writes c + j))) /\
      di_table_name run.1 = table_name /\
      di_category run.1 = pd_subcategory first /\
      match reply (writes c + k) with
      | Wrote true nrows =>
          di_success run.1 = true /\ di_rows_inserted run.1 = nrows /\
          di_error_message run.1 = None /\
          run.2 = Client true (writes c + k + 1)
                    (log c ++ failed_attempts table_name rows k
                     ++ [EvWrite table_name rows; EvCommit])
      | failure =>
          k = 2 /\
          di_success run.1 = false /\ di_rows_inserted run.1 = 0 /\
          di_error_message run.1 = Some (failure_message failure) /\
          run.2 = Client true (writes c + 3)
                    (log c ++ failed_attempts table_name rows 2
                     ++ [EvWrite table_name rows; EvRollback; EvCommit])
      end.
Proof.
  intros first later table_name [conn w lg] Hconn products rows run.
  simpl in Hconn. subst conn. subst run products rows.
  unfold insert_products. cbn [seq insert_loop].
  unfold attempt_insert, emit. cbn [connected writes log negb].
  destruct (reply w) as [[|] n0|e0] eqn:H0;
    [exists 0; rewrite Nat.add_0_r, H0; cbn; retry_done| |];
    (cbn [Nat.eqb connected writes log negb];
     destruct (reply (S w)) as [[|] n1|e1] eqn:H1;
     [exists 1; rewrite Nat.add_1_r, H1; cbn; retry_done| |];
     (cbn [Nat.eqb connected writes log negb];
      destruct (reply (S (S w))) as [[|] n2|e2] eqn:H2;
      exists 2; replace (w + 2) with (S (S w)) by lia; rewrite H2; cbn;
      retry_done)).
Qed.

(** X3. Without an open connection, as before [connect] or after
    [close], loading a non-empty list fails with the message of
    [get_connection] after the two back-off sleeps, and no write, commit
    or rollback reaches the data store. *)
Theorem insert_products_without_connection :
  forall (first : ProductData) (later : list ProductData)
         (table_name : pystr) (c : client),
    connected c = false ->
    insert_products reply (first :: later) table_name c
    = ({| di_table_name := table_name;
          di_category := pd_subcategory first;
          di_success := false; di_rows_inserted := 0; di_rows_failed := 0;
          di_error_message :=
            Some (str "Connection not established. Call connect() first.") |},
       Client false (writes c) (log c ++ [EvSleep 1; EvSleep 2])) /\
    forall c0 : client,
      insert_products reply (first :: later) table_name (close c0)
      = ({| di_table_name := table_name;
            di_category := pd_subcategory first;
            di_success := false; di_rows_inserted := 0; di_rows_failed := 0;
            di_error_message :=
              Some (str "Connection not established. Call connect() first.")
         |},
         Client false (writes c0) (log c0 ++ [EvSleep 1; EvSleep 2])).
Proof.
  intros first later table_name [conn w lg] Hconn. simpl in Hconn.
  subst conn. unfold close, insert_products. cbn [seq insert_loop].
  unfold attempt_insert, emit. cbn.
  rewrite <- !app_assoc. split; [reflexivity|].
  intros c0. now rewrite <- !app_assoc.
Qed.

Lemma insert_loop_table attempts products table_name category : forall c,
  di_table_name (insert_loop reply attempts products table_name category c).1
  = table_name.
Proof.
  induction attempts as [|attempt later IH]; intros c; [reflexivity|].
  cbn [insert_loop].
  destruct (attempt_insert reply products table_name c) as [[e|nrows] c'];
    [|reflexivity].
  destruct (Nat.eqb attempt 2); [reflexivity|apply IH].
Qed.

Lemma insert_products_table products table_name c :
  di_table_name (insert_products reply products table_name c).1 = table_name.
Proof.
  destruct products as [|first later]; [reflexivity|].
  apply insert_loop_table.
Qed.

Lemma insert_group_results tables acc group :
  dom (insert_group reply tables acc group).1 = {[ group.1 ]} ∪ dom acc.1 /\
  forall result,
    (insert_group reply tables acc group).1 !! group.1 = Some result ->
    match tables !! group.1 with
    | Some table_name => di_table_name result = table_name
    | None => result = no_mapping_result group.1
    end.
Proof.
  destruct group as [category products]. unfold insert_group. cbn [fst].
  destruct (tables !! category) as [table_name|] eqn:Hmap.
  - pose proof (insert_products_table products table_name acc.2) as Htab.
    destruct (insert_products reply products table_name acc.2)
      as [result c'].
    cbn [fst snd] in *. split; [apply dom_insert_L|].
    intros r. rewrite lookup_insert_eq. now intros [= <-].
  - cbn [fst]. split; [apply dom_insert_L|].
    intros r. rewrite lookup_insert_eq. now intros [= <-].
Qed.

Lemma fold_insert_group_results tables groups : forall acc,
  (forall category result,
     acc.1 !! category = Some result ->
     match tables !! category with
     | Some table_name => di_table_name result = table_name
     | None => result = no_mapping_result category
     end) ->
  dom (fold_left (insert_group reply tables) groups acc).1
  = list_to_set groups.*1 ∪ dom acc.1 /\
  forall category result,
    (fold_left (insert_group reply tables) groups acc).1 !! category
    = Some result ->
    match tables !! category with
    | Some table_name => di_table_name result = table_name
    | None => result = no_mapping_result category
    end.
Proof.
  induction groups as [|g groups IH]; intros acc Hacc.
  - simpl. split; [set_solver|exact Hacc].
  - cbn [fold_left].
    destruct (insert_group_results tables acc g) as [Hdom Hnew].
    destruct (IH (insert_group reply tables acc g)) as [Hd Hr].
    + intros category result Hlook.
      destruct (decide (category = g.1)) as [->|Hne]; [now apply Hnew|].
      apply Hacc. rewrite <- Hlook. symmetry.
      now apply insert_group_other.
    + split; [|exact Hr]. rewrite Hd, Hdom, fmap_cons. set_solver.
Qed.

Lemma insert_products_by_category_dom tables groups c :
  dom (insert_products_by_category reply tables groups c).1
  = list_to_set groups.*1.
Proof.
  unfold insert_products_by_category.
  destruct (fold_insert_group_results tables groups (∅, c)) as [Hd _].
  - intros category result. cbn [fst]. now rewrite lookup_empty.
  - rewrite Hd. cbn [fst]. set_solver.
Qed.

(** X4. [insert_products_by_category] returns one outcome for each
    category it was given and for no other; the outcome of a category with
    a table names that table, the outcome of a category without one is the
    "No table mapping" failure. *)
Theorem every_category_gets_one_outcome :
  forall (tables : gmap pystr pystr)
         (groups : list (pystr * list ProductData)) (c : client),
    let results := (insert_products_by_category reply tables groups c).1 in
    dom results = list_to_set groups.*1 /\
    forall category result,
      results !! category = Some result ->
      match tables !! category with
      | Some table_name => di_table_name result = table_name
      | None => result = no_mapping_result category
      end.
Proof.
  intros tables groups c. cbn zeta.
  split; [apply insert_products_by_category_dom|].
  unfold insert_products_by_category.
  apply (fold_insert_group_results tables groups (∅, c)).
  intros category result. cbn [fst]. now rewrite lookup_empty.
Qed.

End ClientFacts.

(** A store that fails twice and then writes [rows] rows. *)
Lemma insert_products_retries_witness :
  exists k,
    k < 3 /\
    di_success
      (insert_products
         (fun i => if Nat.ltb i 2 then WriteRaised (str "timeout")
                   else Wrote true 1)
         [sample_product "Miami" "Pre-Rolls"] (str "TL_Scrape_Pre_Rolls")
         (Client true 0 [])).1 = true.
Proof.
  destruct (insert_products_retries
              (fun i => if Nat.ltb i 2 then WriteRaised (str "timeout")
                        else Wrote true 1)
              (sample_product "Miami" "Pre-Rolls") []
              (str "TL_Scrape_Pre_Rolls") (Client true 0 []) eq_refl)
    as (k & Hk & _ & _ & _ & _).
  exists k. split; [exact Hk|]. vm_compute. reflexivity.
Defined.

Lemma insert_products_without_connection_witness :
  (insert_products (always_written 1) [sample_product "Miami" "Pre-Rolls"]
     (str "TL_Scrape_Pre_Rolls") (close (Client true 0 []))).2
  = Client false 0 [EvSleep 1; EvSleep 2].
Proof.
  rewrite (proj1 (insert_products_without_connection (always_written 1)
                    (sample_product "Miami" "Pre-Rolls") []
                    (str "TL_Scrape_Pre_Rolls") (close (Client true 0 []))
                    eq_refl)).
  reflexivity.
Defined.

Lemma every_category_gets_one_outcome_witness :
  di_table_name
    (insert_products (always_written 1) [sample_product "Miami" "Pre-Rolls"]
       (str "TL_Scrape_Pre_Rolls") (Client true 0 [])).1
  = str "TL_Scrape_Pre_Rolls".
Proof.
  refine (proj2 (every_category_gets_one_outcome (always_written 1)
                   default_tables
                   [(str "Pre-Rolls", [sample_product "Miami" "Pre-Rolls"])]
                   (Client true 0 []))
            (str "Pre-Rolls") _ _).
  vm_compute. reflexivity.
Defined.

(** ** Data model *)

Section ModelFacts.






Lemma add_results_snoc session added cr :
  add_results session (added ++ [cr])
  = add_result (add_results session added) cr.1 cr.2.
Proof. unfold add_results. now rewrite fold_left_app. Qed.

Lemma add_results_spec :
  forall (session_id : pystr) (added : list (pystr * ScrapingResult)),
    let session := add_results (new_ScrapingSession session_id) added in
    ss_success session = forallb (fun cr => sr_success cr.2) added /\
    ss_total_products session
    = list_sum (map (fun cr => sr_total_products cr.2) added) /\
    ss_errors session = omap error_line added /\
    ss_total_stores session = 0 /\
    (forall before category result after,
       added = before ++ (category, result) :: after ->
       category ∉ after.*1 ->
       ss_results session !! category = Some result) /\
    dom (ss_results session) = list_to_set added.*1.
Proof.
  intros session_id added. cbn zeta.
  induction added as [|cr added IH] using rev_ind.
  - cbn. do 4 (split; [reflexivity|]). split; [|set_solver].
    intros before category result after Heq.
    destruct before; discriminate.
  - rewrite add_results_snoc.
    destruct IH as (Hs & Ht & He & Hz & Hr & Hd).
    unfold add_result. cbn [ss_success ss_total_products ss_errors
                            ss_total_stores ss_results].
    rewrite ?Hs, ?Ht, ?He, ?Hz.
    split; [|split; [|split; [|split; [|split]]]].
    + rewrite forallb_app. cbn. now rewrite andb_true_r.
    + rewrite map_app, list_sum_app. cbn. lia.
    + rewrite omap_app. cbn. unfold error_line.
      destruct (sr_success cr.2); [now rewrite app_nil_r|].
      destruct (sr_error_message cr.2) as [msg|]; [|now rewrite app_nil_r].
      destruct (truthy msg); [reflexivity|now rewrite app_nil_r].
    + reflexivity.
    + intros before category result after Heq Hnot.
      destruct after as [|x after _] using rev_ind.
      * apply app_inj_tail in Heq as [_ ->]. cbn.
        apply lookup_insert_eq.
      * rewrite app_comm_cons, app_assoc in Heq.
        apply app_inj_tail in Heq as [Hadded ->].
        rewrite fmap_app, not_elem_of_app in Hnot. destruct Hnot as [Hn1 Hn2].
        cbn in Hn2. rewrite list_elem_of_singleton in Hn2.
        rewrite lookup_insert_ne by congruence.
        now apply (Hr before category result after).
    + rewrite dom_insert_L, Hd, fmap_app. cbn. set_solver.
Qed.

(** X6. After any sequence of [add_result] calls on a fresh session:
    [success] holds exactly when every result added succeeded;
    [total_products] is the sum of the totals of all results added, also of
    those a later result of the same category replaced; [results] holds
    for each category the last result added for it; [errors] lists, in
    order, "<category>: <message>" for each failed result with a non-empty
    message. *)
Theorem add_result_accumulates :
  forall (session_id : pystr) (added : list (pystr * ScrapingResult)),
    let session := add_results (new_ScrapingSession session_id) added in
    ss_success session = forallb (fun cr => sr_success cr.2) added /\
    ss_total_products session
    = list_sum (map (fun cr => sr_total_products cr.2) added) /\
    ss_errors session = omap error_line added /\
    ss_total_stores session = 0 /\
    (forall before category result after,
       added = before ++ (category, result) :: after ->
       category ∉ after.*1 ->
       ss_results session !! category = Some result) /\
    dom (ss_results session) = list_to_set added.*1.
Proof. exact add_results_spec. Qed.



End ModelFacts.

(** ** Orchestration *)

Section OrchestrationFacts.




Lemma select_categories_names wanted name :
  name ∈ (select_categories wanted).*2 <->
  name ∈ default_names /\
  match wanted_names wanted with
  | Some l => name ∈ l
  | None => True
  end.
Proof.
  unfold select_categories, wanted_names, default_names.
  destruct wanted as [[|w ws]|]; try tauto.
  rewrite !list_elem_of_fmap. split.
  - intros (c & -> & Hc). apply list_elem_of_filter in Hc as [Hw Hc].
    split; [exists c; now split|exact Hw].
  - intros [(c & -> & Hc) Hw]. exists c. split; [reflexivity|].
    apply list_elem_of_filter. now split.
Qed.

Lemma default_names_NoDup : NoDup default_names.
Proof.
  apply (proj2 (NoDup_ListNoDup _)).
  repeat constructor; cbn; intros H;
    repeat (destruct H as [H|H]; [discriminate|]); exact H.
Qed.

Lemma select_categories_sublist wanted :
  (select_categories wanted).*2 `sublist_of` default_names.
Proof.
  unfold select_categories, default_names.
  destruct wanted as [[|w ws]|]; try reflexivity.
  apply fmap_sublist, sublist_filter.
Qed.

Lemma scrape_all_categories_names task wanted :
  (scrape_all_categories task wanted).*1 = (select_categories wanted).*2.
Proof.
  unfold scrape_all_categories.
  induction (select_categories wanted) as [|c l IH]; [reflexivity|].
  cbn. now f_equal.
Qed.

(** X9. [scrape_all_categories] returns one entry for each default
    category the filter names, in the default order, and nothing else: an
    absent or empty filter gives all three, names that are no default
    category give nothing.  The entry of a category is what its task
    returned, or, when the task raised, a failed result carrying the
    exception text. *)
Theorem categories_are_selected_from_the_defaults :
  forall (task : pystr -> pystr -> outcome ScrapingResult)
         (categories_to_scrape : option (list pystr)),
    let results := scrape_all_categories task categories_to_scrape in
    NoDup results.*1 /\
    results.*1 `sublist_of` default_names /\
    (forall name,
       name ∈ results.*1 <->
       name ∈ default_names /\
       match wanted_names categories_to_scrape with
       | Some wanted => name ∈ wanted
       | None => True
       end) /\
    (wanted_names categories_to_scrape = None ->
     results.*1 = default_names) /\
    (forall name result,
       (name, result) ∈ results ->
       exists url,
         (url, name) ∈ default_categories /\
         match task url name with
         | Ok returned => result = returned
         | Raised e =>
             result = failed_result name e /\ sr_success result = false
         end).
Proof.
  intros task wanted. cbn zeta. rewrite scrape_all_categories_names.
  split; [|split; [|split; [|split]]].
  - exact (sublist_NoDup _ _ default_names_NoDup
             (select_categories_sublist wanted)).
  - apply select_categories_sublist.
  - intros name. apply select_categories_names.
  - unfold wanted_names, select_categories.
    destruct wanted as [[|w ws]|]; [reflexivity|discriminate|reflexivity].
  - intros name result Hin. unfold scrape_all_categories in Hin.
    apply list_elem_of_fmap in Hin as ([url name'] & [= -> ->] & Hc).
    exists url. split.
    + unfold select_categories in Hc.
      destruct wanted as [[|w ws]|]; try exact Hc.
      now apply list_elem_of_filter in Hc as [_ Hc].
    + cbn. destruct (task url name'); [reflexivity|now split].
Qed.

End OrchestrationFacts.

(** ** Storing the results and the complete workflow *)

Section WorkflowFacts.

Variable reply : nat -> write_reply.
Variable tables : gmap pystr pystr.

Lemma products_by_category_spec scraping_results category products :
  (category, products) ∈ products_by_category scraping_results <->
  exists result,
    (category, result) ∈ scraping_results /\
    sr_success result = true /\
    products = sr_products result /\ products ≠ [].
Proof.
  unfold products_by_category. rewrite list_elem_of_omap. split.
  - intros ([c r] & Hin & Hsome). cbn in Hsome.
    destruct (sr_success r) eqn:Hs; [|discriminate].
    destruct (bool_decide (sr_products r ≠ [])) eqn:Hp; [|discriminate].
    apply bool_decide_eq_true in Hp. cbn in Hsome.
    injection Hsome as <- <-. now exists r.
  - intros (r & Hin & Hs & -> & Hp). exists (category, r).
    split; [exact Hin|]. cbn. rewrite Hs.
    now rewrite bool_decide_eq_true_2.
Qed.

(** X10. [store_results_in_snowflake] hands to the loader the products of
    exactly the categories whose scrape succeeded with at least one
    product, and returns an outcome for each of them and for no other
    category.  Without a client, or when no category qualifies, it returns
    an empty mapping and the data store is not touched. *)
Theorem only_successful_categories_are_stored :
  forall (client : option SnowflakeClient.client)
         (scraping_results : list (pystr * ScrapingResult)),
    let stored :=
      store_results_in_snowflake reply tables client scraping_results in
    (client = None -> stored = (∅, None)) /\
    (products_by_category scraping_results = [] -> stored = (∅, client)) /\
    (forall c, client = Some c ->
       dom stored.1 = list_to_set (products_by_category scraping_results).*1 /\
       stored.2
       = Some (insert_products_by_category reply tables
                 (products_by_category scraping_results) c).2) /\
    (forall category products,
       (category, products) ∈ products_by_category scraping_results <->
       exists result,
         (category, result) ∈ scraping_results /\
         sr_success result = true /\
         products = sr_products result /\ products ≠ []).
Proof.
  intros client scraping_results. cbn zeta.
  unfold store_results_in_snowflake.
  split; [now intros ->|]. split; [|split].
  - intros ->. now destruct client.
  - intros c ->.
    pose proof (insert_products_by_category_dom reply tables
                  (products_by_category scraping_results) c) as Hdom.
    destruct (products_by_category scraping_results) as [|g groups] eqn:Hg.
    + cbn. split; [set_solver|reflexivity].
    + destruct (insert_products_by_category reply tables (g :: groups) c)
        as [insert_results c'].
      cbn [fst snd] in *. now split.
  - apply products_by_category_spec.
Qed.

Lemma with_errors_fields session more :
  ss_success (finalize (with_errors session more)) = ss_success session /\
  ss_total_products (finalize (with_errors session more))
  = ss_total_products session /\
  ss_errors (finalize (with_errors session more))
  = ss_errors session ++ more /\
  ss_results (finalize (with_errors session more)) = ss_results session.
Proof. repeat split. Qed.

(** X11. The session the workflow returns is successful exactly when every
    category scraped succeeded, and its product total is the sum of the
    category totals, whatever happens while storing: failed inserts and a
    missing client only add lines to [errors], after the lines of the
    failed categories.  When storing is switched off the client is left as
    it was and no line is added. *)
Theorem workflow_success_ignores_the_database :
  forall (task : pystr -> pystr -> outcome ScrapingResult)
         (client : option SnowflakeClient.client) (session_id : pystr)
         (categories_to_scrape : option (list pystr))
         (store_in_database : bool),
    let scraped := scrape_all_categories task categories_to_scrape in
    let run :=
      run_complete_scraping_workflow reply tables task client session_id
        categories_to_scrape store_in_database in
    ss_success run.1 = forallb (fun cr => sr_success cr.2) scraped /\
    ss_total_products run.1
    = list_sum (map (fun cr => sr_total_products cr.2) scraped) /\
    dom (ss_results run.1) = list_to_set scraped.*1 /\
    (exists more, ss_errors run.1 = omap error_line scraped ++ more) /\
    (store_in_database = false ->
     run.2 = client /\ ss_errors run.1 = omap error_line scraped) /\
    (store_in_database = true -> client = None ->
     ss_errors run.1
     = omap error_line scraped
       ++ [str "Snowflake client not available for database storage"]).
Proof.
  intros task client session_id wanted store. cbn zeta.
  unfold run_complete_scraping_workflow.
  set (scraped := scrape_all_categories task wanted).
  destruct (add_results_spec session_id scraped)
    as (Hs & Ht & He & _ & _ & Hd).
  fold (add_results (new_ScrapingSession session_id) scraped).
  set (session := add_results (new_ScrapingSession session_id) scraped) in *.
  destruct store.
  - destruct client as [c|].
    + destruct (store_results_in_snowflake reply tables (Some c) scraped)
        as [database_results client'].
      cbn [fst snd]. destruct (with_errors_fields session
        (database_errors (products_by_category scraped) database_results))
        as (-> & -> & -> & ->).
      rewrite Hs, Ht, He, Hd. repeat split; try discriminate.
      eexists. reflexivity.
    + cbn [fst snd]. destruct (with_errors_fields session
        [str "Snowflake client not available for database storage"])
        as (-> & -> & -> & ->).
      rewrite Hs, Ht, He, Hd. repeat split; try discriminate.
      eexists. reflexivity.
  - cbn [fst snd]. cbn [finalize ss_success ss_total_products ss_errors
                        ss_results].
    rewrite Hs, Ht, He, Hd. repeat split; try discriminate.
    exists []. now rewrite app_nil_r.
Qed.

End WorkflowFacts.

Section UnreachableStores.

Variable urljoin : pystr -> pystr -> pystr.
Variable round : Q -> Z -> Q.

Lemma unreachable_visit_returns_nothing subcategory sv :
  unreachable_visit urljoin round subcategory sv -> sv_scrape sv = Ok [].
Proof.
  intros (obs & e & [u1 H1] & [u2 H2] & H3 & [u4 H4] & ->).
  unfold scrape_store_category_tool, finally_close.
  rewrite H1, H2, H3, H4. reflexivity.
Qed.

(** X12. When the page of a store cannot be reached,
    [scrape_store_category_tool] returns an empty list instead of raising,
    so [scrape_single_category] counts the store as scraped: over stores
    that are all unreachable, [store_count] is their number although no
    product was captured and the result is a failure. *)
Theorem unreachable_stores_count_as_scraped :
  forall (stores : list store_visit) (category url : pystr),
    Forall (unreachable_visit urljoin round category) stores ->
    let result := scrape_single_category (Ok stores) category url None in
    Forall (fun sv => sv_scrape sv = Ok []) stores /\
    sr_store_count result = length stores /\
    sr_products result = [] /\
    sr_success result = false /\
    sr_error_message result
    = Some (str "No products found for " ++ category).
Proof.
  intros stores category url Hall. cbn zeta.
  assert (Hempty : Forall (fun sv => sv_scrape sv = Ok []) stores).
  { eapply Forall_impl; [exact Hall|].
    intros sv. apply unreachable_visit_returns_nothing. }
  rewrite scrape_single_category_ok. cbn [cap_stores].
  assert (Hprod : flat_map products_of stores = []).
  { clear Hall. induction Hempty as [|sv l Hsv _ IH]; [reflexivity|].
    cbn. unfold products_of at 1. now rewrite Hsv, IH. }
  assert (Hret : filter (fun sv => returned sv = true) stores = stores).
  { clear Hall Hprod. induction Hempty as [|sv l Hsv _ IH]; [reflexivity|].
    rewrite filter_cons, decide_True, IH; [reflexivity|].
    unfold returned. now rewrite Hsv. }
  rewrite Hprod, Hret. cbn. now repeat split.
Qed.

End UnreachableStores.

(** ** Store locator *)

Section LocatorFacts.

Variable urljoin : pystr -> pystr -> pystr.





Lemma collect_anchors_spec (P : pystr * pystr -> Prop) :
  forall anchors out seen,
    Forall P out ->
    (forall a entry, a ∈ anchors -> entry_of_anchor urljoin a entry ->
                     P entry) ->
    match collect_anchors urljoin anchors out seen with
    | Ok found => Forall anchor_readable anchors /\ Forall P found
    | Raised _ => ~ Forall anchor_readable anchors
    end.
Proof.
  induction anchors as [|a later IH]; intros out seen Hout HP.
  - cbn. split; [constructor|exact Hout].
  - cbn [collect_anchors].
    destruct (an_href a) as [href|e] eqn:Hh; cbn [mbind outcome_bind].
    2:{ intros Hall. apply Forall_cons_iff in Hall as [[[x Hx] _] _].
        congruence. }
    destruct (an_text a) as [text|e] eqn:Ht; cbn [mbind outcome_bind].
    2:{ intros Hall. apply Forall_cons_iff in Hall as [[_ [x Hx]] _].
        congruence. }
    assert (Hread : anchor_readable a).
    { split; eexists; eassumption. }
    assert (HPl : forall a' entry, a' ∈ later ->
                    entry_of_anchor urljoin a' entry -> P entry).
    { intros a' entry Hin. apply HP. now right. }
    destruct (keep_anchor seen href (strip is_space (or_empty text)))
      eqn:Hkeep.
    + specialize (IH (out ++ [(join (str " ")
                          (split_ws (strip is_space (or_empty text))),
                        urljoin BASE (or_empty href))])
                     ({[ or_empty href ]} ∪ seen)).
      destruct (collect_anchors urljoin later _ _) as [found|e].
      * destruct IH as [Hr Hf]; [|exact HPl|].
        -- apply Forall_app. split; [exact Hout|].
           constructor; [|constructor].
           apply (HP a); [now left|].
           unfold keep_anchor in Hkeep.
           apply andb_true_iff in Hkeep as [Hkeep Hfl].
           apply andb_true_iff in Hkeep as [Hkeep _].
           apply andb_true_iff in Hkeep as [Htr Hcont].
           destruct href as [h|]; [|discriminate].
           exists h, text. cbn in *.
           repeat split; try assumption.
           intros ->. discriminate.
        -- split; [now constructor|exact Hf].
      * intros Hall. apply Forall_cons_iff in Hall as [_ Hall].
        apply IH; [|exact HPl|exact Hall].
        apply Forall_app. split; [exact Hout|].
        constructor; [|constructor].
        apply (HP a); [now left|].
        unfold keep_anchor in Hkeep.
        apply andb_true_iff in Hkeep as [Hkeep Hfl].
        apply andb_true_iff in Hkeep as [Hkeep _].
        apply andb_true_iff in Hkeep as [Htr Hcont].
        destruct href as [h|]; [|discriminate].
        exists h, text. cbn in *.
        repeat split; try assumption.
        intros ->. discriminate.
    + specialize (IH out seen Hout HPl).
      destruct (collect_anchors urljoin later out seen) as [found|e].
      * destruct IH as [Hr Hf]. split; [now constructor|exact Hf].
      * intros Hall. apply Forall_cons_iff in Hall as [_ Hall]. now apply IH.
Qed.

Lemma uniq_by_name_spec (P : pystr * pystr -> Prop) :
  forall out uniq names,
    names = list_to_set uniq.*1 -> NoDup uniq.*1 ->
    Forall P out -> Forall P uniq ->
    NoDup (uniq_by_name out uniq names).*1 /\
    Forall P (uniq_by_name out uniq names) /\
    forall name,
      name ∈ (uniq_by_name out uniq names).*1 <->
      name ∈ uniq.*1 \/ name ∈ out.*1.
Proof.
  induction out as [|[name url] later IH]; intros uniq names Hn Hnd Ho Hu.
  - cbn. split; [exact Hnd|]. split; [exact Hu|].
    intros name. split; [now left|]. intros [H|H]; [exact H|inversion H].
  - apply Forall_cons_iff in Ho as [Hp Ho]. cbn [uniq_by_name].
    destruct (bool_decide (name ∈ names)) eqn:Hin.
    + apply bool_decide_eq_true in Hin.
      destruct (IH uniq names Hn Hnd Ho Hu) as (H1 & H2 & H3).
      split; [exact H1|]. split; [exact H2|].
      intros n. rewrite H3, fmap_cons, elem_of_cons. cbn.
      subst names. apply elem_of_list_to_set in Hin.
      split; [tauto|]. intros [H|[->|H]]; tauto.
    + apply bool_decide_eq_false in Hin.
      destruct (IH (uniq ++ [(name, url)]) ({[ name ]} ∪ names))
        as (H1 & H2 & H3).
      * subst names. rewrite fmap_app, list_to_set_app_L. cbn. set_solver.
      * rewrite fmap_app. apply NoDup_app. split; [exact Hnd|].
        split; [|cbn; apply NoDup_singleton].
        intros x Hx Hx'. cbn in Hx'. apply list_elem_of_singleton in Hx'.
        subst x names. apply Hin. now apply elem_of_list_to_set.
      * exact Ho.
      * apply Forall_app. split; [exact Hu|]. now repeat constructor.
      * split; [exact H1|]. split; [exact H2|].
        intros n. rewrite H3, fmap_app, elem_of_app, fmap_cons.
        cbn. rewrite !elem_of_cons, elem_of_nil. tauto.
Qed.

Lemma extract_fl_store_links_spec (P : pystr * pystr -> Prop)
    (goto : outcome unit) (anchors : list anchor_obs) :
  (forall a entry, a ∈ anchors -> entry_of_anchor urljoin a entry ->
                   P entry) ->
  match extract_fl_store_links urljoin (DirectoryObs goto (Ok anchors)) with
  | Ok stores =>
      returns goto /\ Forall anchor_readable anchors /\
      NoDup stores.*1 /\ Forall P stores
  | Raised _ => ~ (returns goto /\ Forall anchor_readable anchors)
  end.
Proof.
  intros HP. unfold extract_fl_store_links.
  cbn [dir_goto dir_anchors].
  destruct goto as [u|e]; cbn [mbind outcome_bind].
  2:{ intros [[x Hx] _]. discriminate. }
  pose proof (collect_anchors_spec P anchors [] ∅ (List.Forall_nil _) HP)
    as Hc.
  destruct (collect_anchors urljoin anchors [] ∅) as [out|e];
    cbn [mbind outcome_bind].
  - destruct Hc as [Hr Hout].
    destruct (uniq_by_name_spec P out [] ∅ eq_refl NoDup_nil_2 Hout
                (List.Forall_nil _)) as (Hnd & HPu & _).
    split; [now exists u|]. now repeat split.
  - intros [_ Hall]. now apply Hc.
Qed.

(** Every anchor that qualifies is in the list collected, or one read
    before it with the same href is. *)
Lemma collect_anchors_complete :
  forall anchors out seen found,
    collect_anchors urljoin anchors out seen = Ok found ->
    (forall entry, entry ∈ out -> entry ∈ found) /\
    forall a entry,
      a ∈ anchors -> entry_of_anchor urljoin a entry ->
      (exists h, an_href a = Ok (Some h) /\ h ∈ seen) \/
      exists a' entry',
        a' ∈ anchors /\ an_href a' = an_href a /\
        entry_of_anchor urljoin a' entry' /\ entry' ∈ found.
Proof.
  induction anchors as [|a0 later IH]; intros out seen found.
  - cbn. intros [= <-]. split; [tauto|]. intros a entry Hin. inversion Hin.
  - cbn [collect_anchors].
    destruct (an_href a0) as [href0|e] eqn:Hh; cbn [mbind outcome_bind];
      [|discriminate].
    destruct (an_text a0) as [text0|e] eqn:Ht; cbn [mbind outcome_bind];
      [|discriminate].
    destruct (keep_anchor seen href0 (strip is_space (or_empty text0)))
      eqn:Hkeep.
    + intros Hrun. destruct (IH _ _ _ Hrun) as [Hout Hlater].
      assert (Hown : entry_of_anchor urljoin a0
                (join (str " ") (split_ws (strip is_space (or_empty text0))),
                 urljoin BASE (or_empty href0)) /\
              an_href a0 = Ok (Some (or_empty href0))).
      { unfold keep_anchor in Hkeep.
        apply andb_true_iff in Hkeep as [Hkeep Hfl].
        apply andb_true_iff in Hkeep as [Hkeep _].
        apply andb_true_iff in Hkeep as [Htr Hcont].
        destruct href0 as [h|]; [|discriminate]. cbn in *.
        split; [|exact Hh]. exists h, text0. repeat split; try assumption.
        intros ->. discriminate. }
      destruct Hown as [Hown Hhref].
      assert (Hin0 : (join (str " ")
                        (split_ws (strip is_space (or_empty text0))),
                      urljoin BASE (or_empty href0)) ∈ found).
      { apply Hout, elem_of_app. right. now left. }
      split.
      * intros entry Hin. apply Hout, elem_of_app. now left.
      * intros a entry Hin Hentry.
        apply elem_of_cons in Hin as [->|Hin].
        -- right. eexists a0, _. split; [now left|].
           split; [reflexivity|]. split; [exact Hown|exact Hin0].
        -- destruct (Hlater a entry Hin Hentry)
             as [(h & Hah & Hseen)|(a' & entry' & Hin' & Hsame & He' & Hf)].
           ++ apply elem_of_union in Hseen as [Hseen|Hseen].
              ** apply elem_of_singleton in Hseen. subst h.
                 right. eexists a0, _. split; [now left|].
                 split; [congruence|]. split; [exact Hown|exact Hin0].
              ** left. now exists h.
           ++ right. exists a', entry'. split; [now right|]. now repeat split.
    + intros Hrun. destruct (IH _ _ _ Hrun) as [Hout Hlater].
      split; [exact Hout|].
      intros a entry Hin Hentry.
      apply elem_of_cons in Hin as [->|Hin].
      * left. destruct Hentry as (h & text & Hah & Hat & Hne & Hcont & Hfl & _).
        rewrite Hh in Hah. injection Hah as ->.
        rewrite Ht in Hat. injection Hat as ->.
        exists h. split; [exact Hh|].
        unfold keep_anchor in Hkeep. cbn [or_empty] in Hkeep.
        rewrite Hcont, Hfl in Hkeep.
        destruct h as [|c h]; [congruence|]. cbn [truthy andb] in Hkeep.
        rewrite andb_true_r in Hkeep. apply negb_false_iff in Hkeep.
        now apply bool_decide_eq_true in Hkeep.
      * destruct (Hlater a entry Hin Hentry)
          as [Hseen|(a' & entry' & Hin' & Hsame & He' & Hf)];
          [now left|].
        right. exists a', entry'. split; [now right|]. now repeat split.
Qed.


(** X14. The stores [extract_fl_store_links] returns have pairwise
    different names, and each comes from an anchor of the directory with a
    non-empty href holding "/dispensaries/" that passes
    [looks_like_florida]: its name is the anchor text with white space
    normalised, its URL the href joined to the site base.  The call returns
    only if the navigation, the anchor listing and both reads of every
    anchor return: one unreadable anchor makes the whole call raise. *)
Theorem store_links_are_distinct_region_anchors :
  forall (goto : outcome unit) (anchors : list anchor_obs),
    match extract_fl_store_links urljoin (DirectoryObs goto (Ok anchors)) with
    | Ok stores =>
        returns goto /\
        Forall anchor_readable anchors /\
        NoDup stores.*1 /\
        Forall (fun entry =>
                  exists a, a ∈ anchors /\ entry_of_anchor urljoin a entry)
               stores
    | Raised _ => ~ (returns goto /\ Forall anchor_readable anchors)
    end.
Proof.
  intros goto anchors. apply extract_fl_store_links_spec.
  intros a entry Hin He. now exists a.
Qed.

(** X15. No qualifying anchor is lost except as a duplicate: for every
    anchor of the directory that [extract_fl_store_links] would keep, the
    name of that anchor, or of an anchor with the same href, is the name of
    a store returned. *)
Theorem every_region_anchor_is_represented :
  forall (goto : outcome unit) (anchors : list anchor_obs)
         (stores : list (pystr * pystr)),
    extract_fl_store_links urljoin (DirectoryObs goto (Ok anchors))
    = Ok stores ->
    forall a entry,
      a ∈ anchors -> entry_of_anchor urljoin a entry ->
      exists a' entry',
        a' ∈ anchors /\ an_href a' = an_href a /\
        entry_of_anchor urljoin a' entry' /\ entry'.1 ∈ stores.*1.
Proof.
  intros goto anchors stores Hrun a entry Hin Hentry.
  unfold extract_fl_store_links in Hrun. cbn [dir_goto dir_anchors] in Hrun.
  destruct goto as [u|e]; cbn [mbind outcome_bind] in Hrun; [|discriminate].
  destruct (collect_anchors urljoin anchors [] ∅) as [out|e] eqn:Hc;
    cbn [mbind outcome_bind] in Hrun; [|discriminate].
  injection Hrun as <-.
  destruct (collect_anchors_complete _ _ _ _ Hc) as [_ Hall].
  destruct (Hall a entry Hin Hentry)
    as [(h & _ & Hseen)|(a' & entry' & Hin' & Hsame & He' & Hf)];
    [set_solver|].
  exists a', entry'. split; [exact Hin'|]. split; [exact Hsame|].
  split; [exact He'|].
  destruct (uniq_by_name_spec (fun _ => True) out [] ∅ eq_refl NoDup_nil_2)
    as (_ & _ & Hnames).
  - apply Forall_forall. tauto.
  - constructor.
  - apply Hnames. right. apply list_elem_of_fmap. now exists entry'.
Qed.

End LocatorFacts.

(** ** Scraped rows and their validation *)

Section ValidationFacts.

Variable urljoin : pystr -> pystr -> pystr.
Variable round : Q -> Z -> Q.









(** What an assembled row holds in the fields read off the link itself
    and in those that may come from the detail page. *)
Lemma assemble_scraped store_name subcategory lk key r :
  assemble urljoin round store_name subcategory lk = Ok (Some (key, r)) ->
  exists text href card_text price0 strain_el,
    lk_text lk = Ok text /\ lk_href lk = Ok href /\
    extract_price_from_card lk = Ok price0 /\
    lk_strain_el lk = Ok strain_el /\
    r_state r = str "FL" /\
    r_name r = strip is_space (or_empty text) /\
    r_name r <> [] /\
    r_url r = (if truthy (or_empty href)
               then Some (urljoin BASE (or_empty href)) else None) /\
    r_strain_type r = strain_of strain_el card_text /\
    r_price r = match price0 with
                | Some p => Some p
                | None => if truthy (or_empty href)
                          then extract_price_from_pdp lk else None
                end /\
    r_brand r = match extract_brand_from_card lk with
                | Some b => Some b
                | None => if truthy (or_empty href)
                          then match lk_pdp_brand lk with
                               | Some b => if truthy b then Some b else None
                               | None => None
                               end
                          else None
                end.
Proof.
  unfold assemble.
  destruct (lk_text lk) as [text|e]; [|discriminate].
  cbn [mbind outcome_bind].
  destruct (truthy (strip is_space (or_empty text))) eqn:Hname;
    [|discriminate].
  cbn [negb].
  destruct (lk_href lk) as [href|e]; [|discriminate].
  cbn [mbind outcome_bind].
  destruct (lk_card_count lk) as [has_card|e]; [|discriminate].
  cbn [mbind outcome_bind].
  destruct (if has_card then lk_card_inner lk
            else Ok (strip is_space (or_empty text)))
    as [card_text|e]; [|discriminate].
  cbn [mbind outcome_bind].
  destruct (extract_price_from_card lk) as [price0|e]; [|discriminate].
  cbn [mbind outcome_bind].
  destruct (lk_strain_el lk) as [strain_el|e]; [|discriminate].
  cbn [mbind outcome_bind].
  intros [= <- <-]. exists text, href, card_text, price0, strain_el.
  cbn [r_state r_name r_url r_strain_type r_price r_brand].
  do 6 (split; [reflexivity|]).
  split; [intros Hnil; rewrite Hnil in Hname; discriminate|].
  do 2 (split; [reflexivity|]).
  split.
  - destruct price0 as [p|].
    + rewrite (bool_decide_eq_false_2 (Some p = None)) by discriminate.
      now rewrite andb_false_r.
    + rewrite (bool_decide_eq_true_2 (None = None)) by reflexivity.
      cbn [orb andb]. rewrite andb_true_r.
      destruct (truthy (or_empty href)).
      * rewrite bool_decide_eq_true_2 by eauto.
        now destruct (extract_price_from_pdp lk).
      * rewrite bool_decide_eq_false_2 by (intros [x Hx]; discriminate).
        reflexivity.
  - destruct (extract_brand_from_card lk) as [b|].
    + rewrite (bool_decide_eq_false_2 (Some b = None)) by discriminate.
      now rewrite andb_false_r.
    + rewrite (bool_decide_eq_true_2 (None = None)) by reflexivity.
      rewrite orb_true_r, andb_true_r. cbn [andb].
      destruct (truthy (or_empty href)).
      * rewrite bool_decide_eq_true_2 by eauto. reflexivity.
      * rewrite bool_decide_eq_false_2 by (intros [x Hx]; discriminate).
        reflexivity.
Qed.





(** X17. Every row [scrape_category] emits comes from one of the links:
    its state is "FL", its name the link text stripped, never empty, and
    it has a URL exactly when the link has a non-empty href.  A price or a
    brand found on the card is never replaced; the detail page is consulted
    only for a value the card lacks, and only when the link has an href. *)
Theorem emitted_rows_prefer_the_card :
  forall (store_name subcategory : pystr) (links : list link_obs) (r : row),
    In r (scrape_category urljoin round store_name subcategory links) ->
    exists lk text href,
      In lk links /\ lk_text lk = Ok text /\ lk_href lk = Ok href /\
      r_state r = str "FL" /\
      r_name r = strip is_space (or_empty text) /\ r_name r <> [] /\
      r_url r = (if truthy (or_empty href)
                 then Some (urljoin BASE (or_empty href)) else None) /\
      (forall p, extract_price_from_card lk = Ok (Some p) ->
                 r_price r = Some p) /\
      (extract_price_from_card lk = Ok None ->
       r_price r = if truthy (or_empty href)
                   then extract_price_from_pdp lk else None) /\
      (forall b, extract_brand_from_card lk = Some b -> r_brand r = Some b) /\
      (extract_brand_from_card lk = None -> or_empty href = [] ->
       r_brand r = None).
Proof.
  intros store_name subcategory links r Hin.
  pattern r. eapply scrape_category_rows; [|exact Hin]. clear r Hin.
  intros lk key r Hlk Has. cbv beta.
  destruct (assemble_scraped _ _ _ _ _ Has)
    as (text & href & card_text & price0 & strain_el & Ht & Hh & Hcard & _
        & Hstate & Hname & Hne & Hurl & _ & Hprice & Hbrand).
  exists lk, text, href.
  do 7 (split; [assumption|]).
  split; [intros p Hp; rewrite Hprice; rewrite Hcard in Hp;
          now injection Hp as ->|].
  split; [intros Hp; rewrite Hprice; rewrite Hcard in Hp;
          now injection Hp as ->|].
  split; [intros b Hb; now rewrite Hbrand, Hb|].
  intros Hb Hnil. now rewrite Hbrand, Hb, Hnil.
Qed.

End ValidationFacts.

(** ** The mock client against the client *)

Section MockFacts.

Variable reply : nat -> write_reply.

Lemma mock_fold_lookup (tables : gmap pystr pystr)
    (groups : list (pystr * list ProductData)) :
  forall (acc : gmap pystr DatabaseInsertResult) (category : pystr),
  category ∈ groups.*1 \/
  (exists r, acc !! category = Some r /\ di_success r = true /\
             di_table_name r = mock_table tables category) ->
  exists r,
    fold_left (fun results group =>
                 <[group.1 := mock_insert_products group.2
                                (mock_table tables group.1)]> results)
              groups acc !! category = Some r /\
    di_success r = true /\ di_table_name r = mock_table tables category.
Proof.
  induction groups as [|g groups IH]; intros acc category Hcase.
  - destruct Hcase as [Hin|Hacc]; [inversion Hin|exact Hacc].
  - cbn [fold_left]. apply IH.
    destruct (decide (category = g.1)) as [->|Hne].
    + right. eexists. rewrite lookup_insert_eq. now repeat split.
    + destruct Hcase as [Hin|(r & Hr & Hs & Ht)].
      * left. rewrite fmap_cons in Hin.
        apply elem_of_cons in Hin as [Heq|Hin]; [contradiction|exact Hin].
      * right. exists r. rewrite lookup_insert_ne by congruence.
        now repeat split.
Qed.

(** X18. [MockSnowflakeClient] reports what the client reports for a write
    the store accepts in full, and for an empty list.  It differs on a
    category without a table: the client fails it with "No table mapping",
    the mock invents the table name "mock_table_<category>" and reports
    success. *)
Theorem mock_client_differs_on_unmapped_categories :
  (forall (products : list ProductData) (table_name : pystr) (c : client),
     connected c = true ->
     reply (writes c) = Wrote true (length products) ->
     (insert_products reply products table_name c).1
     = mock_insert_products products table_name) /\
  (forall (tables : gmap pystr pystr)
          (groups : list (pystr * list ProductData)) (c : client)
          (category : pystr),
     category ∈ groups.*1 -> tables !! category = None ->
     exists real mock,
       (insert_products_by_category reply tables groups c).1 !! category
       = Some real /\
       real = no_mapping_result category /\ di_success real = false /\
       mock_insert_products_by_category tables groups !! category
       = Some mock /\
       di_success mock = true /\
       di_table_name mock
       = str "mock_table_" ++ replace_char " " "_" (lower category)).
Proof.
  split.
  - intros [|first later] table_name [conn w lg] Hconn Hreply;
      [reflexivity|].
    cbn [connected writes] in Hconn, Hreply. subst conn.
    unfold insert_products. cbn [seq insert_loop].
    unfold attempt_insert. cbn [connected writes negb]. rewrite Hreply.
    reflexivity.
  - intros tables groups c category Hin Hmap.
    pose proof (insert_products_by_category_dom reply tables groups c)
      as Hdom.
    assert (Hsome : is_Some ((insert_products_by_category reply tables
                                groups c).1 !! category)).
    { apply elem_of_dom. rewrite Hdom. now apply elem_of_list_to_set. }
    destruct Hsome as [real Hreal].
    assert (Hno : real = no_mapping_result category).
    { unfold insert_products_by_category in Hreal.
      destruct (fold_insert_group_results reply tables groups (∅, c))
        as [_ Hres].
      - intros k r. cbn [fst]. now rewrite lookup_empty.
      - specialize (Hres category real Hreal). now rewrite Hmap in Hres. }
    destruct (mock_fold_lookup tables groups ∅ category (or_introl Hin))
      as (mock & Hmock & Hs & Ht).
    exists real, mock. split; [exact Hreal|]. split; [exact Hno|].
    split; [now rewrite Hno|]. split; [exact Hmock|]. split; [exact Hs|].
    rewrite Ht. unfold mock_table. now rewrite Hmap.
Qed.

End MockFacts.

(** ** The default configuration *)

Section DefaultConfiguration.

Variable reply : nat -> write_reply.

Lemma default_names_configured (name : pystr) :
  name ∈ default_names ->
  name ∈ valid_categories /\ is_Some (default_tables !! name).
Proof.
  unfold default_names. intros Hname. cbn in Hname.
  rewrite !elem_of_cons, elem_of_nil in Hname.
  destruct Hname as [->|[->|[->|[]]]];
    (split; [apply list_elem_of_In; cbn; tauto
            |eexists; vm_compute; reflexivity]).
Qed.

Lemma store_results_map tables c scraping_results :
  (store_results_in_snowflake reply tables (Some c) scraping_results).1
  = (insert_products_by_category reply tables
       (products_by_category scraping_results) c).1.
Proof.
  unfold store_results_in_snowflake.
  destruct (products_by_category scraping_results) as [|g groups];
    [reflexivity|].
  now destruct (insert_products_by_category reply tables (g :: groups) c).
Qed.

(** X19. With the default table mapping the workflow never meets a
    category without a table: whatever the filter and whatever the
    category tasks return, every outcome [store_results_in_snowflake]
    returns for the results of [scrape_all_categories] belongs to a default
    category, which the data model accepts as a subcategory, and names the
    table configured for it. *)
Theorem default_categories_have_tables :
  forall (task : pystr -> pystr -> outcome ScrapingResult)
         (categories_to_scrape : option (list pystr))
         (client : option SnowflakeClient.client)
         (category : pystr) (result : DatabaseInsertResult),
    (store_results_in_snowflake reply default_tables client
       (scrape_all_categories task categories_to_scrape)).1 !! category
    = Some result ->
    category ∈ default_names /\
    category ∈ valid_categories /\
    default_tables !! category = Some (di_table_name result) /\
    result <> no_mapping_result category.
Proof.
  intros task wanted client category result Hlook.
  destruct client as [c|];
    [|cbn in Hlook; now rewrite lookup_empty in Hlook].
  rewrite store_results_map in Hlook.
  set (scraped := scrape_all_categories task wanted) in *.
  assert (Hdefault : category ∈ default_names).
  { assert (Hdom : category ∈ dom (insert_products_by_category reply
                     default_tables (products_by_category scraped) c).1)
      by (apply elem_of_dom; eauto).
    rewrite insert_products_by_category_dom in Hdom.
    apply elem_of_list_to_set, list_elem_of_fmap in Hdom
      as ([k products] & -> & Hin).
    apply products_by_category_spec in Hin as (r & Hin & _).
    assert (Hk : k ∈ scraped.*1)
      by (apply list_elem_of_fmap; now exists (k, r)).
    unfold scraped in Hk. rewrite scrape_all_categories_names in Hk.
    now apply select_categories_names in Hk as [Hk _]. }
  destruct (default_names_configured category Hdefault)
    as [Hvalid [table_name Htable]].
  unfold insert_products_by_category in Hlook.
  destruct (fold_insert_group_results reply default_tables
              (products_by_category scraped) (∅, c)) as [_ Hres].
  { intros k r. cbn [fst]. now rewrite lookup_empty. }
  specialize (Hres category result Hlook). rewrite Htable in Hres.
  split; [exact Hdefault|]. split; [exact Hvalid|].
  split; [now rewrite Htable, Hres|].
  intros ->. cbn in Hres. subst table_name.
  revert Htable. unfold default_names in Hdefault. cbn in Hdefault.
  rewrite !elem_of_cons, elem_of_nil in Hdefault.
  destruct Hdefault as [->|[->|[->|[]]]]; vm_compute; discriminate.
Qed.

End DefaultConfiguration.

(** ** The statements at sample inputs *)


Lemma unreachable_stores_count_as_scraped_witness :
  sr_store_count
    (scrape_single_category
       (Ok [unreachable_store "Miami"; unreachable_store "Tampa"])
       (str "Pre-Rolls")
       (str "https://www.trulieve.com/category/flower/pre-rolls") None)
  = 2.
Proof.
  refine (proj1 (proj2 (unreachable_stores_count_as_scraped
            join_url round_half_even
            [unreachable_store "Miami"; unreachable_store "Tampa"]
            (str "Pre-Rolls")
            (str "https://www.trulieve.com/category/flower/pre-rolls") _))).
  repeat constructor;
    exists unreachable_page, (str "net::ERR_CONNECTION_REFUSED");
    repeat split; eexists; reflexivity.
Defined.


Lemma every_region_anchor_is_represented_witness :
  exists a' entry',
    a' ∈ sample_anchors /\ an_href a' = an_href miami_again_anchor /\
    entry_of_anchor join_url a' entry' /\ entry'.1 ∈ [miami_entry].*1.
Proof.
  refine (every_region_anchor_is_represented join_url (Ok ()) sample_anchors
            [miami_entry] _ miami_again_anchor
            (str "Miami Flagship, FL",
             str "https://www.trulieve.com/dispensaries/florida/miami") _ _).
  - vm_compute. reflexivity.
  - apply list_elem_of_In. cbn. tauto.
  - exists (str "/dispensaries/florida/miami"),
      (Some (str "Miami Flagship, FL")).
    repeat split; try reflexivity. discriminate.
Defined.


Lemma emitted_rows_prefer_the_card_witness :
  exists lk text href,
    In lk [blue_dream_link] /\ lk_text lk = Ok text /\
    lk_href lk = Ok href /\
    r_state blue_dream_row = str "FL" /\
    r_name blue_dream_row = strip is_space (or_empty text) /\
    r_name blue_dream_row <> [] /\
    r_url blue_dream_row
    = (if truthy (or_empty href)
       then Some (join_url BASE (or_empty href)) else None) /\
    (forall p, extract_price_from_card lk = Ok (Some p) ->
               r_price blue_dream_row = Some p) /\
    (extract_price_from_card lk = Ok None ->
     r_price blue_dream_row
     = if truthy (or_empty href) then extract_price_from_pdp lk else None) /\
    (forall b, extract_brand_from_card lk = Some b ->
               r_brand blue_dream_row = Some b) /\
    (extract_brand_from_card lk = None -> or_empty href = [] ->
     r_brand blue_dream_row = None).
Proof.
  apply (emitted_rows_prefer_the_card join_url round_half_even (str "Miami")
           (str "Whole Flower") [blue_dream_link] blue_dream_row).
  vm_compute. left. reflexivity.
Defined.

Lemma default_categories_have_tables_witness :
  default_tables !! str "Pre-Rolls" = Some (str "TL_Scrape_Pre_Rolls").
Proof.
  refine (proj1 (proj2 (proj2 (default_categories_have_tables
            (always_written 1) one_product_task (Some [str "Pre-Rolls"])
            (Some (Client true 0 [])) (str "Pre-Rolls")
            {| di_table_name := str "TL_Scrape_Pre_Rolls";
               di_category := str "Pre-Rolls"; di_success := true;
               di_rows_inserted := 1; di_rows_failed := 0;
               di_error_message := None |} _)))).
  vm_compute. reflexivity.
Defined.
